(** * PoseBridge inference engine: the relay loop of [scripts/engine.py]

    A shallow embedding of [main()]: the body of the [while True] loop is a
    program in a small monad that threads the outside world, records every
    external call in a trace and propagates Python exceptions; the
    [try]/[except] handlers, the loop and the shutdown sequence are built
    on top of it.  The codec (cv2), the estimator (mediapipe), the clock and
    the sockets (zmq) are collaborators: they are taken as an interface
    [Externals], and every statement below holds for all its instances. *)

From Stdlib Require Import List ZArith Lia Bool String Ascii DecimalString.
From Stdlib Require Import Sorted DecimalZ DecimalPos.
From Stdlib.Strings Require Import Byte.
Import ListNotations.

Set Implicit Arguments.
Open Scope string_scope.
Open Scope Z_scope.
Open Scope list_scope.

(** ** Data *)

(** A Python [bytes] object, and a zmq multipart message (a list of frames). *)
Definition bytes := list byte.
Definition Multipart := list bytes.

(** The exceptions the loop tells apart: [except KeyboardInterrupt] and
    [except Exception as e]; [what] is [str(e)]. *)
Inductive exn :=
| KeyboardInterrupt
| Exception (what : string).

(** What a call does: it returns, it raises, or it never returns (a
    blocking [recv] on a socket where nothing arrives). *)
Inductive result (A : Type) :=
| Ok (a : A)
| Raise (e : exn)
| Hang.
Arguments Ok {A} a.
Arguments Raise {A} e.
Arguments Hang {A}.

(** A Python [float] (binary64) and a numpy [float32], by their IEEE-754 bit
    patterns: the loop only moves them around and serialises them. *)
Definition pyfloat := Z.
Definition float32 := Z.

(** [sys.byteorder]: numpy's [float32] dtype and [tobytes()] use the byte
    order of the host. *)
Inductive ByteOrder := little | big.

(** A decoded image: what [cv2.imdecode(_, IMREAD_COLOR)] returns, an
    8-bit 3-channel array of [shape = (rows, cols, 3)], row-major, a pixel
    being its three channel samples in storage order (B, G, R after the
    decode). *)
Definition Pixel := (byte * byte * byte)%type.
Record Mat := { rows : Z; cols : Z; data : list Pixel }.

(** mediapipe's landmark messages; [process] clears [presence], the loop
    reads the four fields below. *)
Record Landmark :=
  { lm_x : pyfloat; lm_y : pyfloat; lm_z : pyfloat; lm_visibility : pyfloat }.
Record LandmarkList := { landmark : list Landmark }.

(** The [results] object of [pose.process]: either attribute is [None] or a
    landmark list message. *)
Record PoseResults :=
  { pose_landmarks : option LandmarkList;
    pose_world_landmarks : option LandmarkList }.

Inductive Socket := socket_sub | socket_pub_img | socket_pub_pose.

Definition Socket_eqb (a b : Socket) : bool :=
  match a, b with
  | socket_sub, socket_sub => true
  | socket_pub_img, socket_pub_img => true
  | socket_pub_pose, socket_pub_pose => true
  | _, _ => false
  end.

(** ** Module constants *)

Definition Param_InPort : string := "6000".
Definition Param_OutImg : string := "6001".
Definition Param_OutPose : string := "6002".
Definition Param_IP : string := "127.0.0.1".

Definition IMREAD_COLOR : Z := 1.
Definition IMWRITE_JPEG_QUALITY : Z := 1.

Inductive ColorConversionCode := COLOR_BGR2RGB | COLOR_RGB2BGR.

(** ** Pure library functions the loop calls *)

(** [cv2.cvtColor(src, code)] for the two codes that swap the first and the
    third channel; it returns a new array and leaves [src] alone. *)
Definition swap_rb (p : Pixel) : Pixel :=
  let '(c0, c1, c2) := p in (c2, c1, c0).

Definition cvtColor (src : Mat) (code : ColorConversionCode) : Mat :=
  match code with
  | COLOR_BGR2RGB | COLOR_RGB2BGR =>
      {| rows := rows src; cols := cols src; data := map swap_rb (data src) |}
  end.

(** [np.frombuffer(b, np.uint8)]: the same bytes, viewed as an array. *)
Definition np_frombuffer (b : bytes) : bytes := b.

(** [str.encode('utf-8')]; [json.dumps] escapes everything outside ASCII, so
    its output is one byte per character. *)
Definition encode_utf8 (s : string) : bytes := list_byte_of_string s.

(** The values [json.dumps] meets in this program. *)
Inductive jvalue :=
| JInt (n : Z)
| JFloat (f : pyfloat).

Definition dquote : string := String "034"%char EmptyString.

Definition str_int (n : Z) : string := NilZero.string_of_int (Z.to_int n).

Section Json.
(** [float.__repr__], which [json.dumps] uses for a finite float. *)
Variable float_repr : pyfloat -> string.

Definition dumps_value (v : jvalue) : string :=
  match v with
  | JInt n => str_int n
  | JFloat f => float_repr f
  end.

Definition dumps_item (kv : string * jvalue) : string :=
  (dquote ++ fst kv ++ dquote ++ ": " ++ dumps_value (snd kv))%string.

Fixpoint dumps_items (items : list (string * jvalue)) : string :=
  match items with
  | [] => ""
  | [kv] => dumps_item kv
  | kv :: rest => (dumps_item kv ++ ", " ++ dumps_items rest)%string
  end.

(** [json.dumps(d)] of a dict with string keys (plain ASCII here), in
    insertion order, with the default separators. *)
Definition json_dumps (d : list (string * jvalue)) : string :=
  ("{" ++ dumps_items d ++ "}")%string.
End Json.

(** [ndarray.tobytes()] of a one-dimensional [float32] array. *)
Definition byte_of_Z (v : Z) : byte :=
  byte_of_ascii (ascii_of_N (Z.to_N (v mod 256))).

Definition float32_le (b : float32) : bytes :=
  [ byte_of_Z b; byte_of_Z (Z.shiftr b 8);
    byte_of_Z (Z.shiftr b 16); byte_of_Z (Z.shiftr b 24) ].

Definition float32_tobytes (order : ByteOrder) (b : float32) : bytes :=
  match order with
  | little => float32_le b
  | big => rev (float32_le b)
  end.

Definition tobytes (order : ByteOrder) (a : list float32) : bytes :=
  flat_map (float32_tobytes order) a.

(** ** The trace of external calls *)

(** One event per call that leaves the interpreter, with its arguments and
    what came back. *)
Inductive Event :=
| EvPrint (line : string)
| EvConnect (s : Socket) (addr : string)
| EvSubscribe (s : Socket) (topic : string)
| EvBind (s : Socket) (addr : string)
| EvPoll (s : Socket) (timeout : Z) (r : result bool)
| EvRecv (s : Socket) (r : result Multipart)
| EvImdecode (buf : bytes) (flags : Z) (r : result (option Mat))
| EvProcess (image : Mat) (r : result PoseResults)
| EvDrawLandmarks (image : Mat) (lms : LandmarkList) (r : result Mat)
| EvImencode (ext : string) (img : Mat) (params : list Z)
             (r : result (bool * bytes))
| EvTime (r : result pyfloat)
| EvSend (s : Socket) (parts : Multipart) (r : result unit)
| EvClose (s : Socket)
| EvTerm.

Definition Trace := list Event.

(** The messages handed to the transport on socket [s], in order: the
    [send_multipart] calls that returned. *)
Fixpoint published (s : Socket) (t : Trace) : list Multipart :=
  match t with
  | [] => []
  | EvSend s' parts (Ok _) :: t' =>
      if Socket_eqb s s' then parts :: published s t' else published s t'
  | _ :: t' => published s t'
  end.

(** The messages taken from the inbound socket, in order. *)
Fixpoint received (t : Trace) : list Multipart :=
  match t with
  | [] => []
  | EvRecv _ (Ok m) :: t' => m :: received t'
  | _ :: t' => received t'
  end.

(** The lines written to standard output. *)
Fixpoint printed (t : Trace) : list string :=
  match t with
  | [] => []
  | EvPrint l :: t' => l :: printed t'
  | _ :: t' => printed t'
  end.

(** The sockets closed, in order, and whether the context was terminated. *)
Fixpoint closes (t : Trace) : list Socket :=
  match t with
  | [] => []
  | EvClose s :: t' => s :: closes t'
  | _ :: t' => closes t'
  end.

Fixpoint terms (t : Trace) : nat :=
  match t with
  | [] => 0%nat
  | EvTerm :: t' => S (terms t')
  | _ :: t' => terms t'
  end.

(** The exception an event ended with, if it did. *)
Definition outcome_exn {A} (r : result A) : option exn :=
  match r with
  | Raise e => Some e
  | _ => None
  end.

Definition raised (ev : Event) : option exn :=
  match ev with
  | EvPoll _ _ r => outcome_exn r
  | EvRecv _ r => outcome_exn r
  | EvImdecode _ _ r => outcome_exn r
  | EvProcess _ r => outcome_exn r
  | EvDrawLandmarks _ _ r => outcome_exn r
  | EvImencode _ _ _ r => outcome_exn r
  | EvTime r => outcome_exn r
  | EvSend _ _ r => outcome_exn r
  | _ => None
  end.

(** ** The collaborators *)

(** The outside world has a state [E] of its own (the network, the signal
    the operator may send, the estimator's tracking state, the clock).  A
    call is a transition of that state which returns, raises or hangs. *)
Class Externals (E : Type) := {
  (** [sys.byteorder] of the host *)
  byteorder : ByteOrder;
  (** [float.__repr__] *)
  float_repr : pyfloat -> string;
  (** the cast of [np.array(_, dtype=np.float32)] on one Python float *)
  np_float32 : pyfloat -> float32;
  (** whether [socket_sub.poll] gets to return (a signal or a transport
      error makes it raise) *)
  zmq_poll_status : E -> result unit * E;
  (** the same for [socket_sub.recv_multipart] *)
  zmq_recv_status : E -> result unit * E;
  (** [socket.send_multipart(parts)] *)
  zmq_send_multipart : Socket -> Multipart -> E -> result unit * E;
  (** [cv2.imdecode(buf, flags)]: [None] on bytes that are no image *)
  cv2_imdecode : bytes -> Z -> E -> result (option Mat) * E;
  (** [pose.process(image)] *)
  pose_process : Mat -> E -> result PoseResults * E;
  (** [mp_drawing.draw_landmarks(image, landmark_list, POSE_CONNECTIONS)]:
      the contents of [image] after the in-place drawing *)
  mp_draw_landmarks : Mat -> LandmarkList -> E -> result Mat * E;
  (** [cv2.imencode(ext, img, params)]: the success flag and the buffer *)
  cv2_imencode : string -> Mat -> list Z -> E -> result (bool * bytes) * E;
  (** [time.time()] *)
  time_time : E -> result pyfloat * E
}.

(** ** The loop's view of the world *)

Section Engine.
Context {E : Type} {X : Externals E}.

(** [env]: the collaborators' state.  [sub_queue]: the messages waiting in
    the inbound socket, oldest first.  [arrivals]: what the producer will
    deliver, one batch for each coming [poll] (the messages that reach the
    socket before that call returns). *)
Record World := {
  env : E;
  sub_queue : list Multipart;
  arrivals : list (list Multipart)
}.

Definition set_env (w : World) (e : E) : World :=
  {| env := e; sub_queue := sub_queue w; arrivals := arrivals w |}.

(** A step of the program: the world it leaves, the calls it made, and how
    it ended. *)
Definition M (A : Type) := World -> result A * Trace * World.

Definition ret {A} (a : A) : M A := fun w => (Ok a, [], w).

Definition raise {A} (e : exn) : M A := fun w => (Raise e, [], w).

Definition bind {A B} (m : M A) (k : A -> M B) : M B := fun w =>
  match m w with
  | (Ok a, t1, w1) => let '(r, t2, w2) := k a w1 in (r, t1 ++ t2, w2)
  | (Raise e, t1, w1) => (Raise e, t1, w1)
  | (Hang, t1, w1) => (Hang, t1, w1)
  end.

Notation "x <- m ;; k" := (bind m (fun x => k))
  (at level 61, m at next level, right associativity).
Notation "m ;;; k" := (bind m (fun _ => k))
  (at level 61, right associativity).

(** [bool(l)] of a list. *)
Definition nonempty {A} (l : list A) : bool :=
  match l with
  | [] => false
  | _ :: _ => true
  end.

(** A call to a collaborator, logged with what it returned. *)
Definition call {A} (f : E -> result A * E) (ev : result A -> Event) : M A :=
  fun w => let (r, e') := f (env w) in (r, [ev r], set_env w e').

(** [socket_sub.poll(timeout)]: the batch that arrives in the meantime joins
    the queue; the call reports whether a message is there, and takes
    nothing. *)
Definition poll (timeout : Z) : M bool := fun w =>
  let q := sub_queue w ++ hd [] (arrivals w) in
  let (st, e') := zmq_poll_status (env w) in
  let w' := {| env := e'; sub_queue := q; arrivals := tl (arrivals w) |} in
  let r := match st with
           | Ok _ => Ok (nonempty q)
           | Raise e => Raise e
           | Hang => Hang
           end in
  (r, [EvPoll socket_sub timeout r], w').

(** [socket_sub.recv_multipart()]: takes the oldest queued message, and
    blocks when there is none. *)
Definition recv_multipart : M Multipart := fun w =>
  let (st, e') := zmq_recv_status (env w) in
  match st, sub_queue w with
  | Ok _, m :: q =>
      (Ok m, [EvRecv socket_sub (Ok m)],
       {| env := e'; sub_queue := q; arrivals := arrivals w |})
  | Ok _, [] => (Hang, [EvRecv socket_sub Hang], set_env w e')
  | Raise e, _ => (Raise e, [EvRecv socket_sub (Raise e)], set_env w e')
  | Hang, _ => (Hang, [EvRecv socket_sub Hang], set_env w e')
  end.

Definition send_multipart (s : Socket) (parts : Multipart) : M unit :=
  call (zmq_send_multipart s parts) (EvSend s parts).

Definition imdecode (buf : bytes) (flags : Z) : M (option Mat) :=
  call (cv2_imdecode buf flags) (EvImdecode buf flags).

Definition process (image : Mat) : M PoseResults :=
  call (pose_process image) (EvProcess image).

Definition draw_landmarks (image : Mat) (lms : LandmarkList) : M Mat :=
  call (mp_draw_landmarks image lms) (EvDrawLandmarks image lms).

Definition imencode (ext : string) (img : Mat) (params : list Z)
  : M (bool * bytes) :=
  call (cv2_imencode ext img params) (EvImencode ext img params).

Definition time : M pyfloat := call time_time EvTime.

(** [msg[i]] on a list: [IndexError] out of range. *)
Definition getitem (msg : Multipart) (i : nat) : M bytes :=
  match nth_error msg i with
  | Some part => ret part
  | None => raise (Exception "list index out of range")
  end.

(** [o.landmark] where [o] may be [None]. *)
Definition getattr_landmark (o : option LandmarkList) : M (list Landmark) :=
  match o with
  | Some l => ret (landmark l)
  | None =>
      raise (Exception "'NoneType' object has no attribute 'landmark'")
  end.

(** The list [kp_list] after the [for lm in ...: kp_list.extend([...])]. *)
Definition extend_keypoints (lms : list Landmark) : list pyfloat :=
  flat_map (fun lm => [lm_x lm; lm_y lm; lm_z lm; lm_visibility lm]) lms.

(** ** The loop body *)

(** Lines 50-85, the statements inside [try].  A landmark list message is
    an object without [__bool__] or [__len__], so [if results.pose_landmarks]
    asks whether the attribute is not [None].  The [continue] of line 59 is
    the end of the body: nothing follows the [try] statement in the loop. *)
Definition try_body : M unit :=
  ready <- poll 10 ;;
  if ready : bool then
    msg <- recv_multipart ;;
    part1 <- getitem msg 1%nat ;;
    frame <- imdecode (np_frombuffer part1) IMREAD_COLOR ;;
    match frame with
    | None => ret tt
    | Some frame =>
        results <- process (cvtColor frame COLOR_BGR2RGB) ;;
        drawn <-
          match pose_landmarks results with
          | Some lms =>
              frame' <- draw_landmarks frame lms ;;
              world <- getattr_landmark (pose_world_landmarks results) ;;
              ret (frame', extend_keypoints world)
          | None => ret (frame, [])
          end ;;
        let frame := fst drawn in
        let kp_list := snd drawn in
        enc <- imencode ".jpg" frame [IMWRITE_JPEG_QUALITY; 70] ;;
        let buffer := snd enc in
        ts <- time ;;
        let meta_img :=
          json_dumps float_repr
            [("w", JInt (cols frame)); ("h", JInt (rows frame));
             ("ts", JFloat ts)]%string in
        send_multipart socket_pub_img [encode_utf8 meta_img; buffer] ;;;
        if nonempty kp_list then
          let kp_array := map np_float32 kp_list in
          world <- getattr_landmark (pose_world_landmarks results) ;;
          let meta_pose :=
            json_dumps float_repr
              [("count", JInt (Z.of_nat (List.length world)))]%string in
          send_multipart socket_pub_pose
            [encode_utf8 meta_pose; tobytes byteorder kp_array]
        else ret tt
    end
  else ret tt.

(** How one pass through the loop ends. *)
Inductive Ctl := Continue | Break | Stuck.

(** Lines 47-91: the [try] statement with its two handlers. *)
Definition iteration (w : World) : Ctl * Trace * World :=
  match try_body w with
  | (Ok _, t, w') => (Continue, t, w')
  | (Raise KeyboardInterrupt, t, w') => (Break, t, w')
  | (Raise (Exception what), t, w') =>
      (Break, t ++ [EvPrint ("[Py Error] " ++ what)], w')
  | (Hang, t, w') => (Stuck, t, w')
  end.

(** The first [n] passes of [while True], or fewer when the loop is left or
    stuck before. *)
Fixpoint run (n : nat) (w : World) : Ctl * Trace * World :=
  match n with
  | O => (Continue, [], w)
  | S n' =>
      match iteration w with
      | (Continue, t, w') =>
          let '(c, t', w'') := run n' w' in (c, t ++ t', w'')
      | other => other
      end
  end.

(** Lines 16-44: the sockets are created, connected and bound, the
    estimator is built. *)
Definition setup : Trace :=
  [ EvPrint "[Py] Starting Inference Engine...";
    EvConnect socket_sub ("tcp://" ++ Param_IP ++ ":" ++ Param_InPort);
    EvSubscribe socket_sub "";
    EvBind socket_pub_img ("tcp://*:" ++ Param_OutImg);
    EvBind socket_pub_pose ("tcp://*:" ++ Param_OutPose);
    EvPrint "[Py] Ready and waiting for frames..." ]%string.

(** Lines 93-97, after the loop. *)
Definition shutdown : Trace :=
  [ EvPrint "[Py] Shutting down.";
    EvClose socket_sub; EvClose socket_pub_img; EvClose socket_pub_pose;
    EvTerm ].

(** What [main()] has done after at most [n] passes of its loop. *)
Definition main_trace (n : nat) (w : World) : Trace :=
  match run n w with
  | (Break, t, _) => setup ++ t ++ shutdown
  | (_, t, _) => setup ++ t
  end.

(** [main()] returning within [n] passes: its whole trace. *)
Definition main (n : nat) (w : World) : option Trace :=
  match run n w with
  | (Break, t, _) => Some (setup ++ t ++ shutdown)
  | _ => None
  end.

(** ** Notions the statements use *)

Definition ctl_of (x : Ctl * Trace * World) : Ctl := fst (fst x).
Definition trace_of (x : Ctl * Trace * World) : Trace := snd (fst x).
Definition world_of (x : Ctl * Trace * World) : World := snd x.

(** The landmark set the estimator returned: its world landmarks, none when
    the attribute is [None]. *)
Definition landmark_set (r : PoseResults) : list Landmark :=
  match pose_world_landmarks r with
  | Some l => landmark l
  | None => []
  end.

(** A landmark on the wire: x, y, z, visibility as little-endian
    [float32]. *)
Definition landmark_bytes (lm : Landmark) : bytes :=
  float32_le (np_float32 (lm_x lm)) ++ float32_le (np_float32 (lm_y lm)) ++
  float32_le (np_float32 (lm_z lm)) ++
  float32_le (np_float32 (lm_visibility lm)).

(** The two metadata parts, as JSON text in UTF-8. *)
Definition preview_meta (img : Mat) (ts : pyfloat) : bytes :=
  encode_utf8
    (json_dumps float_repr
       [("w", JInt (cols img)); ("h", JInt (rows img)); ("ts", JFloat ts)]).

Definition pose_meta (count : nat) : bytes :=
  encode_utf8 (json_dumps float_repr [("count", JInt (Z.of_nat count))]).

(** The trace of a pass that decoded a frame and ran to its end: the calls
    it made, in order, with their arguments. *)
Definition decoded_trace (msg : Multipart) (buf : bytes) (frame : Mat)
    (results : PoseResults) (shown : Mat) (enc : bool * bytes) (ts : pyfloat)
  : Trace :=
  [ EvPoll socket_sub 10 (Ok true);
    EvRecv socket_sub (Ok msg);
    EvImdecode buf IMREAD_COLOR (Ok (Some frame));
    EvProcess (cvtColor frame COLOR_BGR2RGB) (Ok results) ]
  ++ match pose_landmarks results with
     | Some lms => [EvDrawLandmarks frame lms (Ok shown)]
     | None => []
     end
  ++ [ EvImencode ".jpg" shown [IMWRITE_JPEG_QUALITY; 70] (Ok enc);
       EvTime (Ok ts);
       EvSend socket_pub_img [preview_meta shown ts; snd enc] (Ok tt) ]
  ++ match pose_landmarks results, pose_world_landmarks results with
     | Some _, Some world =>
         if nonempty (landmark world) then
           [ EvSend socket_pub_pose
               [ pose_meta (List.length (landmark world));
                 tobytes byteorder
                   (map np_float32 (extend_keypoints (landmark world))) ]
               (Ok tt) ]
         else []
     | _, _ => []
     end.

(** The frame a trace is at: the message received last, and the calls made
    since. *)
Definition Frame := (Multipart * Trace)%type.

Definition step (cur : option Frame) (ev : Event) : option Frame :=
  match ev with
  | EvRecv _ (Ok m) => Some (m, [])
  | _ => match cur with
         | Some (m, seg) => Some (m, seg ++ [ev])
         | None => None
         end
  end.

Definition current (a : Trace) : option Frame := fold_left step a None.

(** [parts], published on [s], was made from the frame [f]: from the image
    its payload part decoded to, by calls made since it was received. *)
Definition made_from (s : Socket) (f : Frame) (parts : Multipart) : Prop :=
  let (msg, seg) := f in
  exists buf frame,
    nth_error msg 1 = Some buf /\
    In (EvImdecode buf IMREAD_COLOR (Ok (Some frame))) seg /\
    match s with
    | socket_sub => False
    | socket_pub_img =>
        exists shown ok jpg ts,
          (shown = frame \/
           exists lms, In (EvDrawLandmarks frame lms (Ok shown)) seg) /\
          In (EvImencode ".jpg" shown [IMWRITE_JPEG_QUALITY; 70]
                (Ok (ok, jpg))) seg /\
          parts = [preview_meta shown ts; jpg]
    | socket_pub_pose =>
        exists results,
          In (EvProcess (cvtColor frame COLOR_BGR2RGB) (Ok results)) seg /\
          parts = [ pose_meta (List.length (landmark_set results));
                    tobytes byteorder
                      (map np_float32
                         (extend_keypoints (landmark_set results))) ]
    end.

(** Every message published in [t] was made from the frame the trace was at
    when it was sent, [cur] being the frame at the start of [t]. *)
Fixpoint in_order (cur : option Frame) (t : Trace) : Prop :=
  match t with
  | [] => True
  | ev :: t' =>
      match ev with
      | EvSend s parts (Ok _) =>
          match cur with
          | Some f => made_from s f parts
          | None => False
          end
      | _ => True
      end /\ in_order (step cur ev) t'
  end.

(** For each message published on [s], how many messages had been received
    when it was sent, counting from [k]. *)
Fixpoint frame_numbers (s : Socket) (k : nat) (t : Trace) : list nat :=
  match t with
  | [] => []
  | EvRecv _ (Ok _) :: t' => frame_numbers s (S k) t'
  | EvSend s' _ (Ok _) :: t' =>
      if Socket_eqb s s' then k :: frame_numbers s k t'
      else frame_numbers s k t'
  | _ :: t' => frame_numbers s k t'
  end.

(** Two inbound messages that differ at most in their first part, and two
    worlds that differ at most in such parts. *)
Definition same_payload (m1 m2 : Multipart) : Prop :=
  List.length m1 = List.length m2 /\ tl m1 = tl m2.

Definition same_but_metadata (w1 w2 : World) : Prop :=
  env w1 = env w2 /\
  Forall2 same_payload (sub_queue w1) (sub_queue w2) /\
  Forall2 (Forall2 same_payload) (arrivals w1) (arrivals w2).

Definition same_event (e1 e2 : Event) : Prop :=
  match e1, e2 with
  | EvRecv s1 (Ok m1), EvRecv s2 (Ok m2) => s1 = s2 /\ same_payload m1 m2
  | _, _ => e1 = e2
  end.

(** Every encoding call of a trace is a JPEG encoding at quality 70, and
    every preview message published in it carries the buffer one of these
    calls returned. *)
Definition encoded_at_70 (t : Trace) : Prop :=
  (forall ext img params r,
     In (EvImencode ext img params r) t ->
     ext = ".jpg" /\ params = [IMWRITE_JPEG_QUALITY; 70]) /\
  (forall parts,
     In parts (published socket_pub_img t) ->
     exists meta img ok jpg,
       parts = [meta; jpg] /\
       In (EvImencode ".jpg" img [IMWRITE_JPEG_QUALITY; 70] (Ok (ok, jpg))) t).

(** The numbers of a stretch of trace that starts after [k] messages: they
    increase, and lie among the messages the stretch itself receives. *)
Definition numbered (s : Socket) (t : Trace) : Prop :=
  forall k,
    StronglySorted lt (frame_numbers s k t) /\
    Forall (fun x => k < x <= k + List.length (received t))%nat
           (frame_numbers s k t).

(** Two results that agree up to [RA] on what was returned. *)
Definition same_result {A} (RA : A -> A -> Prop) (r1 r2 : result A) : Prop :=
  match r1, r2 with
  | Ok a1, Ok a2 => RA a1 a2
  | Raise e1, Raise e2 => e1 = e2
  | Hang, Hang => True
  | _, _ => False
  end.

(** Two programs that, from worlds differing in inbound metadata only, make
    the same calls, end the same way and leave such worlds again. *)
Definition related {A} (RA : A -> A -> Prop) (m1 m2 : M A) : Prop :=
  forall w1 w2,
    same_but_metadata w1 w2 ->
    same_result RA (fst (fst (m1 w1))) (fst (fst (m2 w2))) /\
    Forall2 same_event (snd (fst (m1 w1))) (snd (fst (m2 w2))) /\
    same_but_metadata (snd (m1 w1)) (snd (m2 w2)).

End Engine.

(** ** Startup

    Lines 16-44 of [main()], before the loop and outside its [try]: the
    context, the three sockets and the estimator are created in this order,
    and an exception raised by any of these calls leaves [main()]. *)

Inductive SocketType := SUB | PUB.

Inductive SetupCall :=
| NewContext
| NewSocket (s : Socket) (kind : SocketType)
| Connect (s : Socket) (addr : string)
| SetSubscribe (s : Socket) (topic : string)
| Bind (s : Socket) (addr : string)
| NewPose (static_image_mode : bool) (model_complexity : Z)
          (enable_segmentation : bool) (min_detection_confidence : pyfloat).

(** The float 0.5, as its binary64 pattern 0x3FE0000000000000. *)
Definition one_half : pyfloat := 4602678819172646912.

Definition setup_calls : list SetupCall :=
  [ NewContext;
    NewSocket socket_sub SUB;
    Connect socket_sub ("tcp://" ++ Param_IP ++ ":" ++ Param_InPort);
    SetSubscribe socket_sub "";
    NewSocket socket_pub_img PUB;
    Bind socket_pub_img ("tcp://*:" ++ Param_OutImg);
    NewSocket socket_pub_pose PUB;
    Bind socket_pub_pose ("tcp://*:" ++ Param_OutPose);
    NewPose false 1 false one_half ]%string.

(** What [main()] does, startup included: a startup call with what came
    back, or an event of the loop and of the lines around it. *)
Inductive Action :=
| ActSetup (c : SetupCall) (r : result unit)
| ActEvent (ev : Event).

(** The events of the loop's trace that a startup call stands for. *)
Definition event_of_call (c : SetupCall) : list Event :=
  match c with
  | Connect s addr => [EvConnect s addr]
  | SetSubscribe s topic => [EvSubscribe s topic]
  | Bind s addr => [EvBind s addr]
  | _ => []
  end.

Definition events_of (a : Action) : list Event :=
  match a with
  | ActSetup c (Ok _) => event_of_call c
  | ActSetup _ _ => []
  | ActEvent ev => [ev]
  end.

(** The startup calls a list of actions holds, in order. *)
Fixpoint calls_of (t : list Action) : list SetupCall :=
  match t with
  | [] => []
  | ActSetup c _ :: t' => c :: calls_of t'
  | ActEvent _ :: t' => calls_of t'
  end.

(** A startup call that returned. *)
Definition returned (c : SetupCall) : Action := ActSetup c (Ok tt).

(** The library calls of the startup, each a transition of the outside
    world that returns, raises or hangs. *)
Class Startup (E : Type) := {
  startup_call : SetupCall -> E -> result unit * E
}.

Section Start.
Context {E : Type} {X : Externals E} {S0 : Startup E}.

(** Straight-line code: the calls one after the other, up to the first that
    does not return. *)
Fixpoint start (calls : list SetupCall) (e : E)
  : result unit * list Action * E :=
  match calls with
  | [] => (Ok tt, [], e)
  | c :: rest =>
      let (r, e') := startup_call c e in
      match r with
      | Ok _ =>
          let '(r', t, e'') := start rest e' in (r', ActSetup c r :: t, e'')
      | _ => (r, [ActSetup c r], e')
      end
  end.

(** [main()] from its first line, returning or raising within [n] passes of
    the loop: how it ended and everything it did. *)
Definition main_with_startup (n : nat) (w : World)
  : option (result unit * list Action) :=
  let hello := ActEvent (EvPrint "[Py] Starting Inference Engine...") in
  let ready := ActEvent (EvPrint "[Py] Ready and waiting for frames...") in
  let '(r, t0, e) := start setup_calls (env w) in
  match r with
  | Ok _ =>
      match run n (set_env w e) with
      | (Break, t, _) =>
          Some (Ok tt,
                hello :: t0 ++ ready :: map ActEvent t
                      ++ map ActEvent shutdown)
      | _ => None
      end
  | Raise ex => Some (Raise ex, hello :: t0)
  | Hang => None
  end.

End Start.

(** ** Reading the pose message back

    What a subscriber does with the two parts: [json.loads(meta)["count"]]
    and [np.frombuffer(payload, dtype="<f4")], the latter as the bit
    patterns of the floats. *)

Definition Z_of_byte (b : byte) : Z := Z.of_N (Byte.to_N b).

Fixpoint frombuffer_le (payload : bytes) : list float32 :=
  match payload with
  | b0 :: b1 :: b2 :: b3 :: rest =>
      (Z_of_byte b0 + 256 * Z_of_byte b1 + 65536 * Z_of_byte b2
       + 16777216 * Z_of_byte b3) :: frombuffer_le rest
  | _ => []
  end.

(** The text before a closing brace that ends the string. *)
Fixpoint before_brace (s : string) : option string :=
  match s with
  | EmptyString => None
  | String c EmptyString =>
      if Ascii.eqb c "}" then Some EmptyString else None
  | String c rest => option_map (String c) (before_brace rest)
  end.

(** The text after a given beginning. *)
Fixpoint after_prefix (p s : string) : option string :=
  match p, s with
  | EmptyString, _ => Some s
  | String a p', String b s' =>
      if Ascii.eqb a b then after_prefix p' s' else None
  | _, _ => None
  end.

Definition loads_count (meta : bytes) : option Z :=
  match after_prefix ("{" ++ dquote ++ "count" ++ dquote ++ ": ")
                     (string_of_list_byte meta) with
  | Some s =>
      match before_brace s with
      | Some digits => option_map Z.of_int (NilZero.int_of_string digits)
      | None => None
      end
  | None => None
  end.

(** ** Further notions *)

(** The arguments a call of the loop may have: the inbound socket is
    polled for 10 ms and received from, images are decoded in colour,
    messages of two parts go to the publishers. *)
Definition disciplined (ev : Event) : Prop :=
  match ev with
  | EvPoll s timeout _ => s = socket_sub /\ timeout = 10
  | EvRecv s _ => s = socket_sub
  | EvImdecode _ flags _ => flags = IMREAD_COLOR
  | EvSend s parts _ => s <> socket_sub /\ List.length parts = 2%nat
  | EvConnect s _ | EvSubscribe s _ => s = socket_sub
  | EvBind s _ => s <> socket_sub
  | _ => True
  end.

Section Framing.
Context {E : Type} {X : Externals E}.

(** Every pose message published in [t] is a count of at least one and
    sixteen bytes for each landmark counted. *)
Definition pose_framed (t : Trace) : Prop :=
  forall parts,
    In parts (published socket_pub_pose t) ->
    exists k payload,
      (0 < k)%nat /\ parts = [pose_meta k; payload] /\
      List.length payload = (16 * k)%nat.

(** The pose stream is never ahead of the preview stream, nor the preview
    stream of the inbound one. *)
Definition streams_nested (t : Trace) : Prop :=
  (List.length (published socket_pub_pose t)
   <= List.length (published socket_pub_img t))%nat /\
  (List.length (published socket_pub_img t)
   <= List.length (received t))%nat.

End Framing.

(** ** A deterministic stand-in for the collaborators

    Used to run the loop on concrete inputs: a codec that knows one image,
    an estimator that finds three landmarks in it, a clock that ticks with
    every call, and an operator who interrupts at a chosen tick. *)
Module Stub.

Record Env := { now : Z; sigint_at : Z }.

Definition tick (e : Env) : Env :=
  {| now := now e + 1; sigint_at := sigint_at e |}.

Fixpoint bytes_eqb (a b : bytes) : bool :=
  match a, b with
  | [], [] => true
  | x :: a', y :: b' => Byte.eqb x y && bytes_eqb a' b'
  | _, _ => false
  end.

Definition jpeg : bytes := [xff; xd8; xff; xe0; x01]%byte.
Definition noise : bytes := [x13; x37]%byte.

(** A 2-by-1 picture, one blue and one red pixel in BGR order. *)
Definition figure : Mat :=
  {| rows := 1; cols := 2;
     data := [(xff, x00, x00); (x00, x00, xff)]%byte |}.

Definition lm (a b c v : Z) : Landmark :=
  {| lm_x := a; lm_y := b; lm_z := c; lm_visibility := v |}.

Definition three : LandmarkList :=
  {| landmark := [lm 1 2 3 4; lm 5 6 7 8; lm 9 10 11 258] |}.

Definition found : PoseResults :=
  {| pose_landmarks := Some three; pose_world_landmarks := Some three |}.

Definition nothing : PoseResults :=
  {| pose_landmarks := None; pose_world_landmarks := None |}.

(** The estimator wants RGB: it sees the figure when the first pixel is red
    last, that is (0, 0, 255) in its channel order. *)
Definition sees_figure (img : Mat) : bool :=
  match data img with
  | (c0, _, c2) :: _ => Byte.eqb c0 x00 && Byte.eqb c2 xff
  | [] => false
  end.

Definition transport (e : Env) : result unit * Env :=
  if sigint_at e <=? now e then (Raise KeyboardInterrupt, tick e)
  else (Ok tt, tick e).

Definition decode (buf : bytes) (flags : Z) (e : Env)
  : result (option Mat) * Env :=
  match buf with
  | [] => (Raise (Exception "!buf.empty()"), tick e)
  | _ => if bytes_eqb buf jpeg then (Ok (Some figure), tick e)
         else (Ok None, tick e)
  end.

Definition estimate (img : Mat) (e : Env) : result PoseResults * Env :=
  (Ok (if sees_figure img then found else nothing), tick e).

Definition draw (img : Mat) (lms : LandmarkList) (e : Env)
  : result Mat * Env :=
  (Ok {| rows := rows img; cols := cols img;
         data := (x00, xff, x00)%byte :: tl (data img) |}, tick e).

Definition encode (ext : string) (img : Mat) (params : list Z) (e : Env)
  : result (bool * bytes) * Env :=
  (Ok (true, flat_map (fun p => [fst (fst p); snd (fst p); snd p])
                      (data img)), tick e).

#[global] Instance externals : Externals Env := {|
  byteorder := little;
  float_repr := fun f => (str_int f ++ ".0")%string;
  np_float32 := fun f => f;
  zmq_poll_status := transport;
  zmq_recv_status := transport;
  zmq_send_multipart := fun _ _ e => (Ok tt, tick e);
  cv2_imdecode := decode;
  pose_process := estimate;
  mp_draw_landmarks := draw;
  cv2_imencode := encode;
  time_time := fun e => (Ok (now e), tick e)
|}.

Definition meta : bytes := encode_utf8 "{}".

Definition world (q : list Multipart) (sig : Z) : World :=
  {| env := {| now := 0; sigint_at := sig |};
     sub_queue := q; arrivals := [] |}.

(** One good frame; noise followed by a good frame; an empty payload; a
    message of one part. *)
Definition good : Multipart := [meta; jpeg].
Definition one_frame : World := world [good] 100.
Definition noise_then_frame : World := world [[meta; noise]; good] 100.
Definition empty_payload : World := world [[meta; []]; good] 100.
Definition one_part : World := world [[meta]; good] 100.

(** A good frame, the operator interrupting at the poll that follows it. *)
Definition interrupted : World := world [good] 9.

(** The good frame again, sent with other metadata. *)
Definition relabelled : World := world [[encode_utf8 "seq=7"; jpeg]] 100.

(** The calls that raise on [empty_payload] and on [interrupted]. *)
Definition decode_error : Event :=
  EvImdecode [] IMREAD_COLOR (Raise (Exception "!buf.empty()")).
Definition sigint : Event := EvPoll socket_sub 10 (Raise KeyboardInterrupt).

End Stub.

(** ** A second stand-in, for the edges

    No signal and no transport error; an estimator that reports a pose in
    the known picture without its world landmarks and none elsewhere; an
    encoder that reports failure; a big-endian host. *)
Module Edge.

Definition jpeg2 : bytes := [xff; xd8; x02]%byte.

Definition blank : Mat :=
  {| rows := 1; cols := 1; data := [(x00, x00, x00)]%byte |}.

Definition half_found : PoseResults :=
  {| pose_landmarks := Some Stub.three; pose_world_landmarks := None |}.

Definition decode (buf : bytes) (flags : Z) (e : unit)
  : result (option Mat) * unit :=
  (Ok (if Stub.bytes_eqb buf Stub.jpeg then Some Stub.figure
       else if Stub.bytes_eqb buf jpeg2 then Some blank else None), e).

Definition externals : Externals unit := {|
  byteorder := big;
  float_repr := fun f => (str_int f ++ ".0")%string;
  np_float32 := fun f => f;
  zmq_poll_status := fun e => (Ok tt, e);
  zmq_recv_status := fun e => (Ok tt, e);
  zmq_send_multipart := fun _ _ e => (Ok tt, e);
  cv2_imdecode := decode;
  pose_process := fun img e =>
    (Ok (if Stub.sees_figure img then half_found else Stub.nothing), e);
  mp_draw_landmarks := fun img _ e => (Ok img, e);
  cv2_imencode := fun _ _ _ e => (Ok (false, [x00]%byte), e);
  time_time := fun e => (Ok 0, e)
|}.

Definition world (q : list Multipart) : World :=
  {| env := tt; sub_queue := q; arrivals := [] |}.

(** The known picture as the first stand-in draws on it. *)
Definition painted : Mat :=
  {| rows := 1; cols := 2;
     data := [(x00, xff, x00); (x00, x00, xff)]%byte |}.

(** Nothing queued; the known picture; the blank one. *)
Definition idle : World := world [].
Definition half : World := world [[Stub.meta; Stub.jpeg]].
Definition plain : World := world [[Stub.meta; jpeg2]].

(** A startup where everything works, and one where the preview port is
    taken. *)
Definition starts : Startup Stub.Env :=
  {| startup_call := fun _ e => (Ok tt, Stub.tick e) |}.

Definition port_taken : Startup Stub.Env :=
  {| startup_call := fun c e =>
       match c with
       | Bind socket_pub_img _ =>
           (Raise (Exception "Address already in use"), Stub.tick e)
       | _ => (Ok tt, Stub.tick e)
       end |}.

End Edge.

(** * Properties *)

Unset Implicit Arguments.

(** ** Observations of a trace made of two parts *)

Lemma published_app (s : Socket) (a b : Trace) :
  published s (a ++ b) = published s a ++ published s b.
Proof.
  induction a as [|ev a IH]; [reflexivity|].
  destruct ev; cbn [app published]; auto.
  destruct r; auto. destruct (Socket_eqb s s0); cbn [app]; congruence.
Qed.

Lemma received_app (a b : Trace) :
  received (a ++ b) = received a ++ received b.
Proof.
  induction a as [|ev a IH]; [reflexivity|].
  destruct ev; cbn [app received]; auto.
  destruct r; cbn [app]; congruence.
Qed.

Lemma printed_app (a b : Trace) : printed (a ++ b) = printed a ++ printed b.
Proof.
  induction a as [|ev a IH]; [reflexivity|].
  destruct ev; cbn [app printed]; congruence.
Qed.

Lemma closes_app (a b : Trace) : closes (a ++ b) = closes a ++ closes b.
Proof.
  induction a as [|ev a IH]; [reflexivity|].
  destruct ev; cbn [app closes]; congruence.
Qed.

Lemma terms_app (a b : Trace) : terms (a ++ b) = (terms a + terms b)%nat.
Proof.
  induction a as [|ev a IH]; [reflexivity|].
  destruct ev; cbn [app terms]; lia.
Qed.

(** ** Taking a pass of the loop apart *)

(** Every way through the body: one case for each outcome of each call. *)
Ltac innermost_match H :=
  match type of H with
  | context [match ?x with _ => _ end] =>
      lazymatch x with
      | context [match _ with _ => _ end] => fail
      | _ => destruct x eqn:?
      end
  end.

Ltac pass_cases H :=
  unfold iteration, try_body, bind, poll, recv_multipart, getitem,
    getattr_landmark, send_multipart, imdecode, process, draw_landmarks,
    imencode, time, call, ret, raise, set_env in H;
  cbn [fst snd env sub_queue arrivals app nonempty] in H;
  repeat (innermost_match H;
          cbn [fst snd env sub_queue arrivals app nonempty] in H);
  try discriminate H.

Section Properties.
Context {E : Type} {X : Externals E}.

(** *** The loop and [main] after a pass *)

Lemma run_S_break (n : nat) (w w' : World) (t : Trace) :
  iteration w = (Break, t, w') -> run (S n) w = (Break, t, w').
Proof. intros H; cbn [run]; rewrite H; reflexivity. Qed.

Lemma run_S_continue (n : nat) (w w' : World) (t : Trace) :
  iteration w = (Continue, t, w') ->
  run (S n) w = (let '(c, t', w'') := run n w' in (c, t ++ t', w'')).
Proof. intros H; cbn [run]; rewrite H; reflexivity. Qed.

Lemma main_S_break (n : nat) (w w' : World) (t : Trace) :
  iteration w = (Break, t, w') -> main (S n) w = Some (setup ++ t ++ shutdown).
Proof.
  intros H; unfold main; erewrite run_S_break by eassumption; reflexivity.
Qed.

(** Membership in a trace that is written out. *)
Ltac in_trace H :=
  cbn [In app] in H;
  repeat (destruct H as [H|H];
          [ first [ discriminate H | injection H as ?; subst | subst ] | ]);
  try contradiction.

Ltac triple H :=
  apply pair_equal_spec in H; destruct H as [H ?];
  apply pair_equal_spec in H; destruct H as [? ?]; subst.

Lemma nonempty_extend_keypoints (l : list Landmark) :
  nonempty (extend_keypoints l) = nonempty l.
Proof. destruct l; reflexivity. Qed.

Lemma decoded_pass (w w' : World) (t : Trace) buf flags frame :
  iteration w = (Continue, t, w') ->
  In (EvImdecode buf flags (Ok (Some frame))) t ->
  exists msg results shown enc ts,
    nth_error msg 1 = Some buf /\
    t = decoded_trace msg buf frame results shown enc ts /\
    (pose_landmarks results = None -> shown = frame) /\
    (pose_landmarks results <> None -> pose_world_landmarks results <> None).
Proof.
  intros H Hin. pass_cases H; triple H; try discriminate.
  all: in_trace Hin.
  all: repeat match goal with u : unit |- _ => destruct u end.
  all: rewrite ?nonempty_extend_keypoints in *.
  all: do 5 eexists; unfold decoded_trace.
  all: repeat match goal with
         | H : pose_landmarks _ = _ |- _ => rewrite H
         | H : pose_world_landmarks _ = _ |- _ => rewrite H
         | H : nonempty _ = _ |- _ => rewrite H
         end.
  all: cbn [app]; unfold np_frombuffer in *.
  all: repeat split; try eassumption; try reflexivity; try congruence.
Qed.

Ltac in_goal := cbn [In app]; repeat (first [left; reflexivity | right]).

Ltac ticks := repeat match goal with u : unit |- _ => destruct u end.

(** *** The serialised keypoints *)

Lemma length_float32_le (b : float32) : List.length (float32_le b) = 4%nat.
Proof. reflexivity. Qed.

Lemma tobytes_little_keypoints (l : list Landmark) :
  tobytes little (map np_float32 (extend_keypoints l))
  = flat_map landmark_bytes l.
Proof.
  unfold tobytes, extend_keypoints.
  induction l as [|lm l IH]; [reflexivity|].
  cbn [flat_map map app float32_tobytes]. rewrite IH.
  unfold landmark_bytes. rewrite <- !app_assoc. reflexivity.
Qed.

Lemma length_landmark_bytes (l : list Landmark) :
  List.length (flat_map landmark_bytes l) = (16 * List.length l)%nat.
Proof.
  induction l as [|lm l IH]; [reflexivity|].
  cbn [flat_map]. rewrite length_app, IH. cbn [List.length].
  unfold landmark_bytes. rewrite !length_app, !length_float32_le. lia.
Qed.

(** ** The pose message *)

(** C1. In a pass that decodes its frame and runs to its end, where the
    estimator (which reports a detection in [pose_landmarks] and the 3D set
    in [pose_world_landmarks], both or neither) returned [results], on a
    little-endian host: a pose message is published if and only if the
    landmark set is not empty; it is then the only one, its count is the
    number N of landmarks, which is positive, and its payload is the 16 N
    bytes of the landmarks in their order, each as x, y, z, visibility in
    little-endian float32. *)
Theorem pose_published_iff_landmarks
    (w w' : World) (c : Ctl) (t : Trace) buf flags frame image results :
  iteration w = (c, t, w') ->
  In (EvImdecode buf flags (Ok (Some frame))) t ->
  c = Continue ->
  In (EvProcess image (Ok results)) t ->
  (pose_landmarks results = None -> pose_world_landmarks results = None) ->
  byteorder = little ->
  let lms := landmark_set results in
  let N := List.length lms in
  (lms <> [] ->
   published socket_pub_pose t = [[pose_meta N; flat_map landmark_bytes lms]]
   /\ List.length (flat_map landmark_bytes lms) = (4 * N * 4)%nat
   /\ (0 < N)%nat) /\
  (lms = [] -> published socket_pub_pose t = []).
Proof.
  intros H Hdec -> Hproc Hcoh Hle lms N.
  destruct (decoded_pass _ _ _ _ _ _ H Hdec)
    as (msg & res & shown & enc & ts & _ & -> & _ & Hworld).
  assert (res = results) as ->.
  { unfold decoded_trace in Hproc.
    destruct (pose_landmarks res); in_trace Hproc; try reflexivity;
      destruct (pose_world_landmarks res) as [wl|];
      try destruct (nonempty (landmark wl)); in_trace Hproc. }
  unfold decoded_trace. subst lms N. unfold landmark_set.
  destruct (pose_landmarks results) as [lms|] eqn:Hlm.
  - destruct (pose_world_landmarks results) as [wl|] eqn:Hw;
      [|exfalso; apply Hworld; congruence].
    destruct (landmark wl) as [|l0 ls] eqn:Hl; cbn [nonempty app published].
    + split; [congruence|reflexivity].
    + split; [intros _|discriminate].
      rewrite Hle, tobytes_little_keypoints, length_landmark_bytes.
      cbn [Socket_eqb List.length]. repeat split; lia.
  - rewrite (Hcoh eq_refl). cbn [app published Socket_eqb].
    split; [congruence|reflexivity].
Qed.

(** ** The preview message *)

(** C2. A pass that decodes its frame and runs to its end publishes exactly
    one preview message.  Its payload is what [imencode] returned for the
    buffer: the frame as drawn on when the estimator reported landmarks, the
    frame as decoded, with no drawing call made, when it did not.  Its
    metadata is the JSON object with [w] the number of columns and [h] the
    number of rows of that buffer and [ts] the float [time.time()]
    returned. *)
Theorem preview_published_for_every_decoded_frame
    (w w' : World) (c : Ctl) (t : Trace) buf flags frame :
  iteration w = (c, t, w') ->
  In (EvImdecode buf flags (Ok (Some frame))) t ->
  c = Continue ->
  exists results shown ok jpg ts,
    In (EvProcess (cvtColor frame COLOR_BGR2RGB) (Ok results)) t /\
    match pose_landmarks results with
    | Some lms => In (EvDrawLandmarks frame lms (Ok shown)) t
    | None => shown = frame /\
              forall img lms r, ~ In (EvDrawLandmarks img lms r) t
    end /\
    In (EvImencode ".jpg" shown [IMWRITE_JPEG_QUALITY; 70] (Ok (ok, jpg))) t /\
    In (EvTime (Ok ts)) t /\
    published socket_pub_img t =
      [[ encode_utf8
           (json_dumps float_repr
              [("w", JInt (cols shown)); ("h", JInt (rows shown));
               ("ts", JFloat ts)]);
         jpg ]].
Proof.
  intros H Hdec ->.
  destruct (decoded_pass _ _ _ _ _ _ H Hdec)
    as (msg & res & shown & [ok jpg] & ts & _ & -> & Hshown & _).
  exists res, shown, ok, jpg, ts. unfold decoded_trace.
  destruct (pose_landmarks res) as [lms|].
  - destruct (pose_world_landmarks res) as [wl|];
      [destruct (nonempty (landmark wl))|];
      repeat split; try in_goal; reflexivity.
  - rewrite (Hshown eq_refl).
    repeat split; try in_goal; try reflexivity.
    intros img lms r Hin. in_trace Hin.
Qed.

(** ** Decode failure *)

(** C3 (amended: nothing is logged). A pass whose [imdecode] returns [None]
    made three calls
    (poll, receive, decode), published nothing on either channel, raised
    nothing and ends in [Continue]; line 59 is a bare [continue], so the
    failure is absorbed in silence: nothing is printed or logged.  The loop
    goes on with its next pass, from a world where only that one message has
    left the queue.  If that next pass decodes its frame and runs to its
    end, it is the full pass of a good frame, and its preview is the one
    message the two passes published. *)
Theorem decode_failure_skips_message
    (w w' : World) (c : Ctl) (t : Trace) buf flags :
  iteration w = (c, t, w') ->
  In (EvImdecode buf flags (Ok None)) t ->
  c = Continue /\
  (exists msg,
     nth_error msg 1 = Some buf /\
     t = [ EvPoll socket_sub 10 (Ok true); EvRecv socket_sub (Ok msg);
           EvImdecode buf IMREAD_COLOR (Ok None) ] /\
     msg :: sub_queue w' = sub_queue w ++ hd [] (arrivals w)) /\
  published socket_pub_img t = [] /\
  published socket_pub_pose t = [] /\
  printed t = [] /\
  (forall n,
     run (S n) w
     = (ctl_of (run n w'), t ++ trace_of (run n w'), world_of (run n w'))) /\
  (forall t2 w2 buf2 flags2 frame2,
     iteration w' = (Continue, t2, w2) ->
     In (EvImdecode buf2 flags2 (Ok (Some frame2))) t2 ->
     exists msg2 results shown enc ts,
       t2 = decoded_trace msg2 buf2 frame2 results shown enc ts /\
       trace_of (run 2 w) = t ++ t2 /\
       published socket_pub_img (trace_of (run 2 w))
       = [[preview_meta shown ts; snd enc]]).
Proof.
  intros H Hin.
  assert (c = Continue /\
          exists msg, nth_error msg 1 = Some buf /\
            t = [ EvPoll socket_sub 10 (Ok true); EvRecv socket_sub (Ok msg);
                  EvImdecode buf IMREAD_COLOR (Ok None) ] /\
            msg :: sub_queue w' = sub_queue w ++ hd [] (arrivals w))
    as (-> & msg & Hbuf & -> & Hq).
  { pose proof H as H0. pass_cases H0; triple H0; in_trace Hin.
    split; [reflexivity|]. eexists. unfold np_frombuffer in *.
    split; [eassumption|]. split; [reflexivity|].
    cbn [sub_queue]. first [reflexivity | congruence]. }
  split; [reflexivity|]. split; [exists msg; auto|].
  repeat split.
  - intros n. erewrite run_S_continue by eassumption.
    destruct (run n w') as [[c' t'] w'']. reflexivity.
  - intros t2 w2 buf2 flags2 frame2 H2 Hdec.
    destruct (decoded_pass _ _ _ _ _ _ H2 Hdec)
      as (msg2 & res & shown & enc & ts & _ & -> & _ & _).
    exists msg2, res, shown, enc, ts.
    assert (trace_of (run 2 w)
            = [ EvPoll socket_sub 10 (Ok true); EvRecv socket_sub (Ok msg);
                EvImdecode buf IMREAD_COLOR (Ok None) ]
              ++ decoded_trace msg2 buf2 frame2 res shown enc ts) as Hrun.
    { erewrite run_S_continue by eassumption.
      erewrite run_S_continue by eassumption.
      cbn [run trace_of fst snd]. rewrite app_nil_r. reflexivity. }
    repeat split; [exact Hrun|]. rewrite Hrun, published_app.
    unfold decoded_trace.
    destruct (pose_landmarks res);
      [destruct (pose_world_landmarks res) as [wl|];
       [destruct (nonempty (landmark wl))|]|]; reflexivity.
Qed.

(** ** A message of fewer than two parts *)

(** C9. When the message received has fewer than two parts, [msg[1]] raises
    [IndexError]: the pass makes no further call, prints the error and
    leaves the loop; [main] goes through its shutdown and returns, whatever
    is still queued behind the message. *)
Theorem short_message_is_fatal
    (w w' : World) (c : Ctl) (t : Trace) (msg : Multipart) :
  iteration w = (c, t, w') ->
  In (EvRecv socket_sub (Ok msg)) t ->
  (List.length msg < 2)%nat ->
  c = Break /\
  t = [ EvPoll socket_sub 10 (Ok true); EvRecv socket_sub (Ok msg);
        EvPrint "[Py Error] list index out of range" ] /\
  (forall n, run (S n) w = (Break, t, w')) /\
  (forall n, main (S n) w = Some (setup ++ t ++ shutdown)) /\
  sub_queue w' = tl (sub_queue w ++ hd [] (arrivals w)).
Proof.
  intros H Hin Hlen.
  assert (nth_error msg 1 = None) as Hnone
    by (apply nth_error_None; lia).
  assert (c = Break /\
          t = [ EvPoll socket_sub 10 (Ok true); EvRecv socket_sub (Ok msg);
                EvPrint "[Py Error] list index out of range" ] /\
          sub_queue w' = tl (sub_queue w ++ hd [] (arrivals w)))
    as (-> & -> & Hq).
  { pose proof H as H0. pass_cases H0; triple H0; in_trace Hin;
      try congruence.
    repeat split. }
  repeat split; auto; intros n.
  - apply run_S_break; assumption.
  - eapply main_S_break; eassumption.
Qed.

(** *** What the full pass of a frame contains *)

Ltac decoded_cases res :=
  unfold decoded_trace;
  let wl := fresh "wl" in
  destruct (pose_landmarks res);
  [ destruct (pose_world_landmarks res) as [wl|];
    [ destruct (nonempty (landmark wl)) | ] | ];
  cbn [app].

Lemma In_received (s : Socket) (m : Multipart) (t : Trace) :
  In (EvRecv s (Ok m)) t -> In m (received t).
Proof.
  induction t as [|ev t IH]; [auto|].
  intros [->|Hin]; [left; reflexivity|].
  destruct ev; cbn [received]; auto. destruct r; cbn [In]; auto.
Qed.

Lemma decoded_trace_received msg buf frame results shown enc ts :
  received (decoded_trace msg buf frame results shown enc ts) = [msg].
Proof. decoded_cases results; reflexivity. Qed.

Lemma decoded_trace_printed msg buf frame results shown enc ts :
  printed (decoded_trace msg buf frame results shown enc ts) = [].
Proof. decoded_cases results; reflexivity. Qed.

Lemma decoded_trace_no_raise msg buf frame results shown enc ts :
  forall ev,
    In ev (decoded_trace msg buf frame results shown enc ts) ->
    raised ev = None.
Proof.
  decoded_cases results; intros ev Hin;
    repeat (destruct Hin as [<-|Hin]; [reflexivity|]); contradiction.
Qed.

(** ** Errors *)

(** The passes that end in [Continue]. *)
Lemma continue_cases (w w' : World) (t : Trace) :
  iteration w = (Continue, t, w') ->
  t = [EvPoll socket_sub 10 (Ok false)] \/
  (exists msg buf,
     nth_error msg 1 = Some buf /\
     t = [ EvPoll socket_sub 10 (Ok true); EvRecv socket_sub (Ok msg);
           EvImdecode buf IMREAD_COLOR (Ok None) ]) \/
  (exists msg buf frame results shown enc ts,
     nth_error msg 1 = Some buf /\
     t = decoded_trace msg buf frame results shown enc ts).
Proof.
  intros H. pose proof H as H0. pass_cases H0; triple H0; try discriminate.
  all: unfold np_frombuffer in *.
  all: first
    [ now left
    | right; left; do 2 eexists; split; [eassumption|reflexivity]
    | right; right;
      match goal with
      | Hd : cv2_imdecode ?b ?f _ = (Ok (Some ?m), _) |- _ =>
          destruct (decoded_pass _ _ _ b f m H)
            as (msg & res & shown & enc & ts & Hb & Ht & _); [in_goal|];
          exists msg; do 6 eexists; split; [exact Hb | exact Ht]
      end ].
Qed.

Ltac all_events :=
  let ev := fresh "ev" in
  let Hin := fresh "Hin" in
  intros ev Hin; cbn [In removelast app] in Hin;
  repeat (destruct Hin as [<-|Hin]; [reflexivity|]); contradiction.

Ltac raising_event Hin Hr :=
  cbn [In app] in Hin;
  repeat (destruct Hin as [Hin|Hin];
          [ subst; cbn [raised outcome_exn] in Hr;
            first [ discriminate Hr | injection Hr as ?; subst | idtac ] | ]);
  try contradiction.

(** C4. Whatever exception the body of the [try] raises, the handler prints
    it and leaves the loop, which is not run again: [main] shuts down and
    returns.  An error raised by any call of a pass (poll, receive, decode,
    estimate, draw, encode, the clock, either publish) is such an exception,
    and that call is the last one of the pass.  A pass ends in [Continue]
    only when no call raised and nothing was printed; if it received a
    message, either [imdecode] returned [None] or the whole pipeline ran. *)
Theorem error_terminates_loop (w w' : World) (c : Ctl) (t : Trace) :
  iteration w = (c, t, w') ->
  (forall what t0 w0,
     try_body w = (Raise (Exception what), t0, w0) ->
     c = Break /\ t = t0 ++ [EvPrint ("[Py Error] " ++ what)] /\ w' = w0 /\
     (forall n, run (S n) w = (Break, t, w')) /\
     (forall n, main (S n) w = Some (setup ++ t ++ shutdown))) /\
  (forall ev what,
     In ev t -> raised ev = Some (Exception what) ->
     c = Break /\
     (exists pre,
        t = pre ++ [ev; EvPrint ("[Py Error] " ++ what)] /\
        forall ev', In ev' pre -> raised ev' = None) /\
     (forall n, run (S n) w = (Break, t, w')) /\
     (forall n, main (S n) w = Some (setup ++ t ++ shutdown))) /\
  (c = Continue ->
     (forall ev, In ev t -> raised ev = None) /\
     printed t = [] /\
     forall msg, In (EvRecv socket_sub (Ok msg)) t ->
       (exists buf,
          t = [ EvPoll socket_sub 10 (Ok true); EvRecv socket_sub (Ok msg);
                EvImdecode buf IMREAD_COLOR (Ok None) ]) \/
       (exists buf frame results shown enc ts,
          t = decoded_trace msg buf frame results shown enc ts)).
Proof.
  intros H. split; [|split].
  - intros what t0 w0 Hbody. pose proof H as H0.
    unfold iteration in H0. rewrite Hbody in H0. triple H0.
    repeat split; intros n.
    + apply run_S_break; assumption.
    + eapply main_S_break; eassumption.
  - intros ev what Hin Hr.
    assert (c = Break /\
            exists pre,
              t = pre ++ [ev; EvPrint ("[Py Error] " ++ what)] /\
              forall ev', In ev' pre -> raised ev' = None)
      as (-> & Hpre).
    { pose proof H as H0. pass_cases H0; triple H0; raising_event Hin Hr.
      all: split; [reflexivity|].
      all: match goal with
           | |- exists pre, ?l = _ /\ _ =>
               exists (removelast (removelast l)); split; [reflexivity|]
           end.
      all: all_events. }
    repeat split; auto; intros n.
    + apply run_S_break; assumption.
    + eapply main_S_break; eassumption.
  - intros ->.
    destruct (continue_cases _ _ _ H)
      as [-> | [(msg & buf & Hb & ->)
               | (msg & buf & frame & res & shown & enc & ts & Hb & ->)]].
    + repeat split; try all_events. intros msg Hin. in_trace Hin.
    + repeat split; try all_events. intros m Hin. in_trace Hin.
      left; eexists; reflexivity.
    + repeat split.
      * apply decoded_trace_no_raise.
      * apply decoded_trace_printed.
      * intros m Hin. apply In_received in Hin.
        rewrite decoded_trace_received in Hin.
        destruct Hin as [<-|[]]. right. do 6 eexists. reflexivity.
Qed.

(** ** Runs of several passes *)

Lemma run_triple (n : nat) (w : World) :
  run n w = (ctl_of (run n w), trace_of (run n w), world_of (run n w)).
Proof. destruct (run n w) as [[c t] w']; reflexivity. Qed.

(** A property of traces that holds of every pass and is kept by
    concatenation holds of every run. *)
Lemma run_trace_ind (P : Trace -> Prop) :
  P [] ->
  (forall a b, P a -> P b -> P (a ++ b)) ->
  (forall w c t w', iteration w = (c, t, w') -> P t) ->
  forall n w, P (trace_of (run n w)).
Proof.
  intros Hnil Happ Hpass n. induction n as [|n IH]; intros w; [exact Hnil|].
  cbn [run]. destruct (iteration w) as [[c t] w1] eqn:Hit.
  pose proof (Hpass _ _ _ _ Hit) as Ht.
  destruct c; try exact Ht.
  specialize (IH w1). destruct (run n w1) as [[c' t'] w2].
  apply Happ; assumption.
Qed.

Lemma main_trace_ind (P : Trace -> Prop) :
  P [] ->
  (forall a b, P a -> P b -> P (a ++ b)) ->
  (forall w c t w', iteration w = (c, t, w') -> P t) ->
  P setup -> P shutdown ->
  forall n w, P (main_trace n w).
Proof.
  intros Hnil Happ Hpass Hsetup Hshut n w.
  pose proof (run_trace_ind P Hnil Happ Hpass n w) as Hrun.
  unfold main_trace. destruct (run n w) as [[c t] w'].
  destruct c; auto.
Qed.

(** After [n0] passes that all ended in [Continue], the loop goes on from
    the world they left. *)
Lemma run_add (n0 m : nat) (w0 w : World) (t0 : Trace) :
  run n0 w0 = (Continue, t0, w) ->
  run (n0 + m) w0
  = (ctl_of (run m w), t0 ++ trace_of (run m w), world_of (run m w)).
Proof.
  revert w0 t0. induction n0 as [|n0 IH]; intros w0 t0 H.
  - cbn [run] in H. triple H. apply run_triple.
  - cbn [run Nat.add] in *.
    destruct (iteration w0) as [[c t1] w1]; destruct c; try discriminate.
    destruct (run n0 w1) as [[c2 t2] w2] eqn:Hr. triple H.
    rewrite (IH _ _ Hr). cbn [ctl_of trace_of world_of fst snd].
    rewrite app_assoc. reflexivity.
Qed.

Lemma pass_closes_nothing (w w' : World) (c : Ctl) (t : Trace) :
  iteration w = (c, t, w') -> closes t = [] /\ terms t = 0%nat.
Proof. intros H. pass_cases H; triple H; split; reflexivity. Qed.

Lemma run_closes_nothing (n : nat) (w : World) :
  closes (trace_of (run n w)) = [] /\ terms (trace_of (run n w)) = 0%nat.
Proof.
  apply run_trace_ind with (P := fun t => closes t = [] /\ terms t = 0%nat).
  - split; reflexivity.
  - intros a b [Ha Ha'] [Hb Hb']. rewrite closes_app, terms_app, Ha, Hb.
    split; [reflexivity|lia].
  - intros w0 c t w'. apply pass_closes_nothing.
Qed.

(** ** Shutdown *)

(** C6. A [KeyboardInterrupt] raised by a call of a pass, after any number
    of passes, is the last call of that pass; nothing is printed for it, the
    loop is left, and [main] returns after printing the shutdown line,
    closing the inbound socket, the preview publisher and the pose publisher
    in that order and terminating the context.  Whenever [main] returns, its
    trace ends with that sequence and nothing was closed before it, so every
    socket is closed exactly once; while it has not returned, nothing is
    closed. *)
Theorem shutdown_closes_every_handle :
  (forall (n0 : nat) (w0 w w' : World) (t0 t : Trace) (c : Ctl) (ev : Event),
     run n0 w0 = (Continue, t0, w) ->
     iteration w = (c, t, w') ->
     In ev t -> raised ev = Some KeyboardInterrupt ->
     c = Break /\
     printed t = [] /\
     (exists pre,
        t = pre ++ [ev] /\ forall ev', In ev' pre -> raised ev' = None) /\
     forall n,
       main (n0 + S n) w0
       = Some (setup ++ (t0 ++ t) ++
               [ EvPrint "[Py] Shutting down."; EvClose socket_sub;
                 EvClose socket_pub_img; EvClose socket_pub_pose; EvTerm ])) /\
  (forall (n : nat) (w : World) (tr : Trace),
     main n w = Some tr ->
     (exists pre,
        tr = pre ++
             [ EvPrint "[Py] Shutting down."; EvClose socket_sub;
               EvClose socket_pub_img; EvClose socket_pub_pose; EvTerm ] /\
        closes pre = [] /\ terms pre = 0%nat) /\
     closes tr = [socket_sub; socket_pub_img; socket_pub_pose] /\
     terms tr = 1%nat) /\
  (forall (n : nat) (w : World),
     main n w = None ->
     closes (main_trace n w) = [] /\ terms (main_trace n w) = 0%nat).
Proof.
  split; [|split].
  - intros n0 w0 w w' t0 t c ev Hrun H Hin Hr.
    assert (c = Break /\ printed t = [] /\
            exists pre, t = pre ++ [ev] /\
              forall ev', In ev' pre -> raised ev' = None)
      as (-> & Hp & Hpre).
    { pose proof H as H0. pass_cases H0; triple H0; raising_event Hin Hr.
      all: split; [reflexivity|]; split; [reflexivity|].
      all: match goal with
           | |- exists pre, ?l = _ /\ _ =>
               exists (removelast l); split; [reflexivity|]
           end.
      all: all_events. }
    repeat split; auto. intros n. unfold main.
    rewrite (run_add n0 (S n) _ _ _ Hrun), (run_S_break n _ _ _ H).
    reflexivity.
  - intros n w tr Hmain. unfold main in Hmain.
    pose proof (run_closes_nothing n w) as [Hc Ht].
    destruct (run n w) as [[c t] w']; destruct c; try discriminate.
    injection Hmain as <-. cbn [trace_of fst snd] in Hc, Ht.
    split.
    + exists (setup ++ t). rewrite closes_app, terms_app, Hc, Ht.
      repeat split.
    + unfold setup, shutdown. cbn [app closes terms].
      rewrite closes_app, terms_app, Hc, Ht. split; reflexivity.
  - intros n w Hmain. unfold main, main_trace in *.
    pose proof (run_closes_nothing n w) as [Hc Ht].
    destruct (run n w) as [[c t] w']; destruct c; try discriminate;
      cbn [trace_of fst snd] in Hc, Ht;
      rewrite closes_app, terms_app, Hc, Ht; split; reflexivity.
Qed.

(** ** Colour order *)

Lemma cvtColor_pixel (src : Mat) (code : ColorConversionCode) (i : nat)
    (c0 c1 c2 : byte) :
  nth_error (data src) i = Some (c0, c1, c2) ->
  nth_error (data (cvtColor src code)) i = Some (c2, c1, c0).
Proof.
  intros H. destruct code; cbn [cvtColor data];
    rewrite nth_error_map, H; reflexivity.
Qed.

Ltac pairs :=
  repeat match goal with p : (bool * bytes)%type |- _ => destruct p end.

(** C7. In a pass that decodes a frame, the estimator is called, once, on
    [cvtColor frame COLOR_BGR2RGB]: an array of the same shape whose pixels
    are those of the frame with the first and third channel exchanged, the
    frame itself being left as decoded.  Every drawing call is on the frame;
    every encoding call is on the frame or on the frame as drawn on; and the
    payload of every preview message sent is the buffer such an encoding
    call returned. *)
Theorem estimator_gets_rgb_copy
    (w w' : World) (c : Ctl) (t : Trace) buf flags frame :
  iteration w = (c, t, w') ->
  In (EvImdecode buf flags (Ok (Some frame))) t ->
  let rgb := cvtColor frame COLOR_BGR2RGB in
  (exists r, In (EvProcess rgb r) t) /\
  (forall image r, In (EvProcess image r) t -> image = rgb) /\
  rows rgb = rows frame /\ cols rgb = cols frame /\
  (forall i c0 c1 c2,
     nth_error (data frame) i = Some (c0, c1, c2) ->
     nth_error (data rgb) i = Some (c2, c1, c0)) /\
  (forall image lms r, In (EvDrawLandmarks image lms r) t -> image = frame) /\
  (forall ext img params r,
     In (EvImencode ext img params r) t ->
     img = frame \/ exists lms, In (EvDrawLandmarks frame lms (Ok img)) t) /\
  (forall parts r,
     In (EvSend socket_pub_img parts r) t ->
     exists meta img ok jpg,
       parts = [meta; jpg] /\
       In (EvImencode ".jpg" img [IMWRITE_JPEG_QUALITY; 70] (Ok (ok, jpg))) t /\
       (img = frame \/ exists lms, In (EvDrawLandmarks frame lms (Ok img)) t)).
Proof.
  intros H Hdec rgb. subst rgb.
  split; [|split; [|split; [reflexivity|split; [reflexivity|split;
    [intros i c0 c1 c2; apply cvtColor_pixel|]]]]].
  - pass_cases H; triple H; in_trace Hdec; eexists; in_goal.
  - intros image r Hin. pass_cases H; triple H; in_trace Hdec; in_trace Hin;
      reflexivity.
  - pass_cases H; triple H; in_trace Hdec; pairs; cbn [snd].
    all: split; [intros image lms r Hin; in_trace Hin; reflexivity|].
    all: split.
    all: try (intros ext img params r Hin; in_trace Hin;
              first [ left; reflexivity | right; eexists; in_goal ]).
    all: intros parts r Hin; in_trace Hin; do 4 eexists.
    all: split; [reflexivity|]; split; [in_goal|].
    all: first [ left; reflexivity | right; eexists; in_goal ].
Qed.

(** ** Encoding quality *)

Lemma encoded_at_70_app (a b : Trace) :
  encoded_at_70 a -> encoded_at_70 b -> encoded_at_70 (a ++ b).
Proof.
  intros [Ha1 Ha2] [Hb1 Hb2]. split.
  - intros ext img params r Hin. apply in_app_or in Hin.
    destruct Hin; eauto.
  - intros parts Hin. rewrite published_app in Hin. apply in_app_or in Hin.
    destruct Hin as [Hin|Hin];
      [destruct (Ha2 _ Hin) as (meta & img & ok & jpg & -> & Hi)
      |destruct (Hb2 _ Hin) as (meta & img & ok & jpg & -> & Hi)];
      exists meta, img, ok, jpg; split; auto; apply in_or_app; auto.
Qed.

Lemma encoded_at_70_pass (w w' : World) (c : Ctl) (t : Trace) :
  iteration w = (c, t, w') -> encoded_at_70 t.
Proof.
  intros H. pass_cases H; triple H; pairs; ticks; split.
  all: try (intros ext img params r Hin; in_trace Hin; split; reflexivity).
  all: intros parts Hin; cbn [published Socket_eqb] in Hin; in_trace Hin.
  all: do 4 eexists; split; [reflexivity|in_goal].
Qed.

Lemma encoded_at_70_fixed (t : Trace) :
  (forall ext img params r, ~ In (EvImencode ext img params r) t) ->
  published socket_pub_img t = [] ->
  encoded_at_70 t.
Proof.
  intros Hno Hp. split.
  - intros ext img params r Hin. destruct (Hno _ _ _ _ Hin).
  - rewrite Hp. intros parts [].
Qed.

(** C10. Whatever the frames, the collaborators and the number of passes,
    every call of [imencode] that [main] makes asks for [".jpg"] with the
    parameters [[IMWRITE_JPEG_QUALITY; 70]], and every preview message it
    publishes has as its payload the buffer such a call returned.  [main]
    takes the quality from nowhere: it is the literal 70. *)
Theorem preview_encoded_at_quality_70 (n : nat) (w : World) :
  (forall ext img params r,
     In (EvImencode ext img params r) (main_trace n w) ->
     ext = ".jpg" /\ params = [IMWRITE_JPEG_QUALITY; 70] /\
     IMWRITE_JPEG_QUALITY = 1 /\ nth_error params 1 = Some 70) /\
  (forall parts,
     In parts (published socket_pub_img (main_trace n w)) ->
     exists meta img ok jpg,
       parts = [meta; jpg] /\
       In (EvImencode ".jpg" img [IMWRITE_JPEG_QUALITY; 70] (Ok (ok, jpg)))
          (main_trace n w)).
Proof.
  assert (encoded_at_70 (main_trace n w)) as [H1 H2].
  { apply main_trace_ind.
    - apply encoded_at_70_fixed; [intros ? ? ? ? []|reflexivity].
    - apply encoded_at_70_app.
    - intros w0 c t w'. apply encoded_at_70_pass.
    - apply encoded_at_70_fixed; [|reflexivity].
      intros ext img params r Hin. in_trace Hin.
    - apply encoded_at_70_fixed; [|reflexivity].
      intros ext img params r Hin. in_trace Hin. }
  split; [|exact H2].
  intros ext img params r Hin. destruct (H1 _ _ _ _ Hin) as [-> ->].
  repeat split.
Qed.

(** ** Order *)

(** *** The inbound queue *)

Lemma pass_takes_oldest (w w' : World) (c : Ctl) (t : Trace) :
  iteration w = (c, t, w') ->
  (List.length (received t) <= 1)%nat /\
  received t ++ sub_queue w' = sub_queue w ++ hd [] (arrivals w) /\
  arrivals w' = tl (arrivals w).
Proof.
  intros H. pass_cases H; triple H; cbn [received List.length app sub_queue
                                          arrivals].
  all: repeat split; try lia; try reflexivity; try congruence.
  all: symmetry; assumption.
Qed.

Lemma concat_hd_tl {A} (l : list (list A)) :
  hd [] l ++ List.concat (tl l) = List.concat l.
Proof. destruct l; reflexivity. Qed.

Lemma run_receives_in_arrival_order (n : nat) (w : World) :
  received (trace_of (run n w)) ++ sub_queue (world_of (run n w))
    ++ List.concat (arrivals (world_of (run n w)))
  = sub_queue w ++ List.concat (arrivals w).
Proof.
  revert w. induction n as [|n IH]; intros w; [reflexivity|].
  cbn [run]. destruct (iteration w) as [[c t] w1] eqn:Hit.
  destruct (pass_takes_oldest _ _ _ _ Hit) as (_ & Hq & Ha).
  assert (received t ++ sub_queue w1 ++ List.concat (arrivals w1)
          = sub_queue w ++ List.concat (arrivals w)) as Hpass.
  { rewrite app_assoc, Hq, Ha, <- app_assoc, concat_hd_tl. reflexivity. }
  destruct c; try exact Hpass.
  specialize (IH w1). destruct (run n w1) as [[c' t'] w2].
  cbn [trace_of world_of fst snd] in *.
  rewrite received_app, <- app_assoc, IH. exact Hpass.
Qed.

(** *** Each message from the frame received last *)

Lemma in_order_weaken (t : Trace) :
  in_order None t -> forall cur, in_order cur t.
Proof.
  induction t as [|ev t IH]; [intros; exact I|].
  intros [Hev Hrest] cur. cbn [in_order]. split.
  - destruct ev; auto. destruct r; auto. destruct Hev.
  - destruct ev; try (destruct cur as [[m seg]|]; apply IH; exact Hrest).
    destruct r; try (destruct cur as [[m seg]|]; apply IH; exact Hrest).
    exact Hrest.
Qed.

Lemma in_order_app (a b : Trace) (cur : option Frame) :
  in_order cur a -> in_order (fold_left step a cur) b -> in_order cur (a ++ b).
Proof.
  revert cur. induction a as [|ev a IH]; intros cur Ha Hb; [exact Hb|].
  destruct Ha as [Hev Ha]. split; [exact Hev|]. apply IH; assumption.
Qed.

Lemma in_order_at (a b : Trace) (cur : option Frame) s parts r :
  in_order cur (a ++ EvSend s parts (Ok r) :: b) ->
  exists f, fold_left step a cur = Some f /\ made_from s f parts.
Proof.
  revert cur. induction a as [|ev a IH]; intros cur H.
  - destruct H as [H _]. destruct cur as [f|]; [|destruct H].
    exists f. split; [reflexivity|exact H].
  - destruct H as [_ H]. apply IH. exact H.
Qed.

Ltac made_from_frame :=
  unfold made_from, landmark_set, preview_meta, pose_meta,
    np_frombuffer in *;
  do 2 eexists; split; [eassumption|]; split; [in_goal|];
  first
    [ do 4 eexists; (split; [|split; [in_goal|reflexivity]]);
      first [ left; reflexivity | right; eexists; in_goal ]
    | eexists; split; [in_goal|];
      repeat match goal with
             | Hw : pose_world_landmarks _ = _ |- _ => rewrite Hw
             end; reflexivity ].

Lemma in_order_pass (w w' : World) (c : Ctl) (t : Trace) :
  iteration w = (c, t, w') -> in_order None t.
Proof.
  intros H. pass_cases H; triple H; pairs; ticks.
  all: cbn [in_order step app]; repeat split.
  all: made_from_frame.
Qed.

Lemma in_order_run (n : nat) (w : World) : in_order None (trace_of (run n w)).
Proof.
  apply run_trace_ind.
  - exact I.
  - intros a b Ha Hb. apply in_order_app; [exact Ha|].
    apply in_order_weaken. exact Hb.
  - intros w0 c t w'. apply in_order_pass.
Qed.

(** *** Frame numbers *)

Lemma frame_numbers_app (s : Socket) (k : nat) (a b : Trace) :
  frame_numbers s k (a ++ b)
  = frame_numbers s k a
    ++ frame_numbers s (k + List.length (received a)) b.
Proof.
  revert k. induction a as [|ev a IH]; intros k.
  - cbn [app frame_numbers received List.length]. rewrite Nat.add_0_r.
    reflexivity.
  - destruct ev; cbn [app frame_numbers received]; auto.
    + destruct r; cbn [List.length]; rewrite IH; auto.
      rewrite Nat.add_succ_comm. reflexivity.
    + destruct r; auto. destruct (Socket_eqb s s0); cbn [app]; rewrite IH;
        reflexivity.
Qed.

Lemma sorted_app (l1 l2 : list nat) (m : nat) :
  StronglySorted lt l1 -> StronglySorted lt l2 ->
  Forall (fun x => x <= m)%nat l1 -> Forall (fun x => m < x)%nat l2 ->
  StronglySorted lt (l1 ++ l2).
Proof.
  intros H1 H2 Hle Hlt. induction H1 as [|x l1 Hs IH Hx]; [exact H2|].
  cbn [app]. constructor.
  - apply IH. inversion Hle; assumption.
  - apply Forall_app. split; [exact Hx|].
    inversion Hle; subst. eapply Forall_impl; [|exact Hlt].
    cbn beta. intros; lia.
Qed.

Lemma numbered_app (s : Socket) (a b : Trace) :
  numbered s a -> numbered s b -> numbered s (a ++ b).
Proof.
  intros Ha Hb k. rewrite frame_numbers_app, received_app, length_app.
  destruct (Ha k) as [Sa Fa].
  destruct (Hb (k + List.length (received a))%nat) as [Sb Fb]. split.
  - apply sorted_app with (m := (k + List.length (received a))%nat); auto.
    + eapply Forall_impl; [|exact Fa]. cbn beta. intros; lia.
    + eapply Forall_impl; [|exact Fb]. cbn beta. intros; lia.
  - apply Forall_app. split.
    + eapply Forall_impl; [|exact Fa]. cbn beta. intros; lia.
    + eapply Forall_impl; [|exact Fb]. cbn beta. intros; lia.
Qed.

Lemma numbered_pass (s : Socket) (w w' : World) (c : Ctl) (t : Trace) :
  iteration w = (c, t, w') -> numbered s t.
Proof.
  intros H k. pass_cases H; triple H; ticks.
  all: destruct s; cbn [frame_numbers received List.length Socket_eqb].
  all: split; repeat constructor; lia.
Qed.

Lemma numbered_run (s : Socket) (n : nat) (w : World) :
  numbered s (trace_of (run n w)).
Proof.
  apply run_trace_ind.
  - intros k. split; constructor.
  - apply numbered_app.
  - intros w0 c t w'. apply numbered_pass.
Qed.

(** C5. A pass takes at most one message from the inbound queue, the
    oldest, and leaves every other queued message where it is.  Over any
    number of passes the messages are received in the order they arrived;
    every message published was made from the frame received last before
    it, by calls made after that frame was received, so the messages of a
    frame are out before the next frame is taken; and on each outbound
    socket the frame numbers of the published messages strictly increase. *)
Theorem frames_relayed_in_order (n : nat) (w : World) :
  (forall w1 c t w2,
     iteration w1 = (c, t, w2) ->
     (List.length (received t) <= 1)%nat /\
     received t ++ sub_queue w2 = sub_queue w1 ++ hd [] (arrivals w1) /\
     arrivals w2 = tl (arrivals w1)) /\
  received (trace_of (run n w)) ++ sub_queue (world_of (run n w))
    ++ List.concat (arrivals (world_of (run n w)))
  = sub_queue w ++ List.concat (arrivals w) /\
  (forall a s parts r b,
     trace_of (run n w) = a ++ EvSend s parts (Ok r) :: b ->
     exists f, current a = Some f /\ made_from s f parts) /\
  (forall s, StronglySorted lt (frame_numbers s 0 (trace_of (run n w)))).
Proof.
  split; [|split; [|split]].
  - intros w1 c t w2. apply pass_takes_oldest.
  - apply run_receives_in_arrival_order.
  - intros a s parts r b Htr. apply in_order_at with (b := b) (r := r).
    rewrite <- Htr. apply in_order_run.
  - intros s. apply (numbered_run s n w 0%nat).
Qed.

(** ** Inbound metadata *)

Local Abbreviation related := (@related E _) (only parsing).

Lemma same_payload_refl (m : Multipart) : same_payload m m.
Proof. split; reflexivity. Qed.

Lemma same_event_refl (ev : Event) : same_event ev ev.
Proof.
  destruct ev; try reflexivity. destruct r; try reflexivity.
  split; [reflexivity|apply same_payload_refl].
Qed.

Lemma related_ret {A} (RA : A -> A -> Prop) (a1 a2 : A) :
  RA a1 a2 -> related RA (ret a1) (ret a2).
Proof. intros H w1 w2 Hw. repeat split; auto; apply Hw. Qed.

Lemma related_raise {A} (RA : A -> A -> Prop) (e : exn) :
  related RA (raise e) (raise e).
Proof. intros w1 w2 Hw. repeat split; auto; apply Hw. Qed.

Lemma related_bind {A B} (RA : A -> A -> Prop) (RB : B -> B -> Prop)
    (m1 m2 : M A) (k1 k2 : A -> M B) :
  related RA m1 m2 ->
  (forall a1 a2, RA a1 a2 -> related RB (k1 a1) (k2 a2)) ->
  related RB (bind m1 k1) (bind m2 k2).
Proof.
  intros Hm Hk w1 w2 Hw. unfold bind.
  destruct (Hm w1 w2 Hw) as (Hr & Ht & Hw').
  destruct (m1 w1) as [[r1 t1] w1'], (m2 w2) as [[r2 t2] w2'].
  cbn [fst snd] in *.
  destruct r1 as [a1| |], r2 as [a2| |]; cbn [same_result] in Hr;
    try contradiction; cbn [fst snd]; auto.
  destruct (Hk a1 a2 Hr w1' w2' Hw') as (Hr2 & Ht2 & Hw2).
  destruct (k1 a1 w1') as [[r1' t1'] w1''], (k2 a2 w2') as [[r2' t2'] w2''].
  cbn [fst snd] in *. repeat split; auto; try apply Hw2.
  apply Forall2_app; assumption.
Qed.

Lemma related_call {A} (f : E -> result A * E) (ev : result A -> Event) :
  related eq (call f ev) (call f ev).
Proof.
  intros w1 w2 (He & Hq & Ha). unfold call. rewrite He.
  destruct (f (env w2)) as [r e']. cbn [fst snd set_env].
  repeat split; auto.
  - destruct r; reflexivity.
  - repeat constructor. apply same_event_refl.
Qed.

Lemma same_payload_nonempty (q1 q2 : list Multipart) :
  Forall2 same_payload q1 q2 -> nonempty q1 = nonempty q2.
Proof. intros H; destruct H; reflexivity. Qed.

Lemma same_payload_hd (a1 a2 : list (list Multipart)) :
  Forall2 (Forall2 same_payload) a1 a2 ->
  Forall2 same_payload (hd [] a1) (hd [] a2).
Proof. intros H; destruct H; [constructor|assumption]. Qed.

Lemma same_payload_tl (a1 a2 : list (list Multipart)) :
  Forall2 (Forall2 same_payload) a1 a2 ->
  Forall2 (Forall2 same_payload) (tl a1) (tl a2).
Proof. intros H; destruct H; [constructor|assumption]. Qed.

Lemma related_poll (timeout : Z) : related eq (poll timeout) (poll timeout).
Proof.
  intros w1 w2 (He & Hq & Ha). unfold poll. rewrite He.
  destruct (zmq_poll_status (env w2)) as [st e'].
  assert (Forall2 same_payload (sub_queue w1 ++ hd [] (arrivals w1))
            (sub_queue w2 ++ hd [] (arrivals w2))) as Hq'
    by (apply Forall2_app; [assumption|apply same_payload_hd; assumption]).
  rewrite (same_payload_nonempty _ _ Hq'). cbn [fst snd].
  repeat split; cbn [env sub_queue arrivals]; auto.
  all: try (destruct st; reflexivity).
  all: try (repeat constructor; reflexivity).
  all: try (apply same_payload_tl; assumption).
Qed.

Lemma related_recv : related same_payload recv_multipart recv_multipart.
Proof.
  intros w1 w2 (He & Hq & Ha). unfold recv_multipart, set_env. rewrite He.
  destruct (zmq_recv_status (env w2)) as [st e'].
  destruct (sub_queue w1) as [|m1 q1] eqn:H1,
           (sub_queue w2) as [|m2 q2] eqn:H2;
    inversion Hq; subst.
  all: destruct st; cbn [fst snd]; unfold same_but_metadata;
    cbn [env sub_queue arrivals same_result]; rewrite ?H1, ?H2;
    repeat split; auto.
  all: try (repeat constructor; auto; fail).
  all: try match goal with Hm : same_payload _ _ |- _ => apply Hm end.
  constructor; [split; [reflexivity|assumption]|constructor].
Qed.

Lemma related_getitem_1 (m1 m2 : Multipart) :
  same_payload m1 m2 -> related eq (getitem m1 1) (getitem m2 1).
Proof.
  intros [Hlen Htl]. unfold getitem.
  assert (nth_error m1 1 = nth_error m2 1) as ->.
  { destruct m1, m2; try discriminate; [reflexivity|].
    cbn [tl] in Htl. subst. reflexivity. }
  destruct (nth_error m2 1); [apply related_ret; reflexivity|].
  apply related_raise.
Qed.

(** The part of the body that follows [msg[1]]: it never looks at the
    message again. *)
Ltac related_steps :=
  repeat first
    [ apply related_call
    | apply related_raise
    | apply related_ret; reflexivity
    | apply (@related_bind _ _ eq); [|intros ? ? <-]
    | match goal with
      | |- related _ (match ?x with _ => _ end) _ => destruct x
      end ].

Lemma related_body : related eq try_body try_body.
Proof.
  unfold try_body.
  eapply related_bind; [apply related_poll|intros ready ? <-].
  destruct ready; [|apply related_ret; reflexivity].
  eapply related_bind; [apply related_recv|intros m1 m2 Hm].
  eapply related_bind; [apply related_getitem_1; exact Hm|intros part1 ? <-].
  unfold imdecode, process, draw_landmarks, imencode, time, send_multipart,
    getattr_landmark.
  related_steps.
Qed.

Lemma same_event_app (a1 a2 b1 b2 : Trace) :
  Forall2 same_event a1 a2 -> Forall2 same_event b1 b2 ->
  Forall2 same_event (a1 ++ b1) (a2 ++ b2).
Proof. apply Forall2_app. Qed.

Lemma same_trace_refl (t : Trace) : Forall2 same_event t t.
Proof. induction t; constructor; auto using same_event_refl. Qed.

Lemma related_iteration (w1 w2 : World) :
  same_but_metadata w1 w2 ->
  ctl_of (iteration w1) = ctl_of (iteration w2) /\
  Forall2 same_event (trace_of (iteration w1)) (trace_of (iteration w2)) /\
  same_but_metadata (world_of (iteration w1)) (world_of (iteration w2)).
Proof.
  intros Hw. destruct (related_body w1 w2 Hw) as (Hr & Ht & Hw').
  unfold iteration.
  destruct (try_body w1) as [[r1 t1] w1'], (try_body w2) as [[r2 t2] w2'].
  cbn [fst snd] in *.
  destruct r1 as [a1|e1|], r2 as [a2|e2|]; cbn [same_result] in Hr;
    try contradiction; subst;
    try (repeat split; auto; apply Hw').
  destruct e2; cbn [ctl_of trace_of world_of fst snd]; repeat split; auto;
    try apply Hw'.
  apply same_event_app; [assumption|apply same_trace_refl].
Qed.

Lemma related_run (n : nat) (w1 w2 : World) :
  same_but_metadata w1 w2 ->
  ctl_of (run n w1) = ctl_of (run n w2) /\
  Forall2 same_event (trace_of (run n w1)) (trace_of (run n w2)) /\
  same_but_metadata (world_of (run n w1)) (world_of (run n w2)).
Proof.
  revert w1 w2. induction n as [|n IH]; intros w1 w2 Hw.
  - repeat split; try apply Hw. constructor.
  - destruct (related_iteration w1 w2 Hw) as (Hc & Ht & Hw').
    cbn [run].
    destruct (iteration w1) as [[c1 t1] w1'], (iteration w2) as [[c2 t2] w2'].
    cbn [ctl_of trace_of world_of fst snd] in Hc, Ht, Hw'. subst c2.
    destruct c1; try (repeat split; auto; apply Hw').
    destruct (IH w1' w2' Hw') as (Hc2 & Ht2 & Hw2).
    destruct (run n w1') as [[c1' t1'] w1''], (run n w2') as [[c2' t2'] w2''].
    cbn [ctl_of trace_of world_of fst snd] in *.
    repeat split; auto; try apply Hw2. apply same_event_app; assumption.
Qed.

Lemma same_event_cases (e1 e2 : Event) :
  same_event e1 e2 ->
  e1 = e2 \/
  exists s m1 m2,
    e1 = EvRecv s (Ok m1) /\ e2 = EvRecv s (Ok m2) /\ same_payload m1 m2.
Proof.
  destruct e1 as [| | | | |s1 r1| | | | | | | |]; try (left; assumption).
  destruct r1 as [m1| |]; try (left; assumption).
  destruct e2 as [| | | | |s2 r2| | | | | | | |]; try (left; assumption).
  destruct r2 as [m2| |]; try (left; assumption).
  intros [-> Hm]. right. exists s2, m1, m2. auto.
Qed.

Lemma same_trace_published (s : Socket) (t1 t2 : Trace) :
  Forall2 same_event t1 t2 -> published s t1 = published s t2.
Proof.
  induction 1 as [|e1 e2 t1 t2 He Ht IH]; [reflexivity|].
  destruct (same_event_cases _ _ He) as [->|(s0 & m1 & m2 & -> & -> & _)].
  - destruct e2; cbn [published]; auto. destruct r; auto.
    destruct (Socket_eqb s s0); congruence.
  - exact IH.
Qed.

Lemma same_trace_printed (t1 t2 : Trace) :
  Forall2 same_event t1 t2 -> printed t1 = printed t2.
Proof.
  induction 1 as [|e1 e2 t1 t2 He Ht IH]; [reflexivity|].
  destruct (same_event_cases _ _ He) as [->|(s0 & m1 & m2 & -> & -> & _)].
  - destruct e2; cbn [printed]; congruence.
  - exact IH.
Qed.

(** C8. From two worlds with the same collaborators whose inbound messages,
    queued and still to arrive, differ at most in their first part, the
    loop makes the same calls with the same arguments, pass after pass (only
    the messages it receives differ, in that part), ends the same way, and
    [main] publishes the same messages on every socket and prints the same
    lines. *)
Theorem outputs_independent_of_inbound_metadata
    (n : nat) (w1 w2 : World) :
  same_but_metadata w1 w2 ->
  ctl_of (run n w1) = ctl_of (run n w2) /\
  Forall2 same_event (trace_of (run n w1)) (trace_of (run n w2)) /\
  (forall s, published s (main_trace n w1) = published s (main_trace n w2)) /\
  printed (main_trace n w1) = printed (main_trace n w2) /\
  env (world_of (run n w1)) = env (world_of (run n w2)).
Proof.
  intros Hw. destruct (related_run n w1 w2 Hw) as (Hc & Ht & Hw').
  repeat split; auto; try apply Hw'.
  - intros s. unfold main_trace.
    destruct (run n w1) as [[c1 t1] w1'], (run n w2) as [[c2 t2] w2'].
    cbn [ctl_of trace_of fst snd] in Hc, Ht. subst c2.
    destruct c1; rewrite !published_app;
      rewrite (same_trace_published s _ _ Ht); reflexivity.
  - unfold main_trace.
    destruct (run n w1) as [[c1 t1] w1'], (run n w2) as [[c2 t2] w2'].
    cbn [ctl_of trace_of fst snd] in Hc, Ht. subst c2.
    destruct c1; rewrite !printed_app;
      rewrite (same_trace_printed _ _ Ht); reflexivity.
Qed.

End Properties.

(** * The loop on the stand-in collaborators *)

Ltac by_computation := vm_compute; repeat (first [left; reflexivity | right]).

(** The metadata parts as text. *)
Example pose_meta_3 :
  pose_meta (X := Stub.externals) 3
  = encode_utf8 ("{" ++ dquote ++ "count" ++ dquote ++ ": 3}").
Proof. reflexivity. Qed.

Example preview_meta_2_by_1 :
  preview_meta (X := Stub.externals) Stub.figure 6
  = encode_utf8
      ("{" ++ dquote ++ "w" ++ dquote ++ ": 2, "
           ++ dquote ++ "h" ++ dquote ++ ": 1, "
           ++ dquote ++ "ts" ++ dquote ++ ": 6.0}").
Proof. reflexivity. Qed.

Example float32_le_258 :
  float32_le 258 = [x02; x01; x00; x00]%byte.
Proof. reflexivity. Qed.

(** The good frame: its three landmarks go out as 48 bytes under count 3. *)
Lemma pose_published_iff_landmarks_witness :
  published socket_pub_pose (trace_of (iteration Stub.one_frame))
  = [[ pose_meta (X := Stub.externals) 3;
       flat_map (landmark_bytes (X := Stub.externals))
                (landmark Stub.three) ]]
  /\ List.length (flat_map (landmark_bytes (X := Stub.externals))
                           (landmark Stub.three)) = 48%nat.
Proof.
  pose proof (@pose_published_iff_landmarks Stub.Env Stub.externals
                Stub.one_frame (world_of (iteration Stub.one_frame))
                (ctl_of (iteration Stub.one_frame))
                (trace_of (iteration Stub.one_frame))
                Stub.jpeg IMREAD_COLOR Stub.figure
                (cvtColor Stub.figure COLOR_BGR2RGB) Stub.found) as H.
  cbv zeta in H.
  destruct H as [H _];
    [ reflexivity | by_computation | reflexivity | by_computation
    | discriminate | reflexivity | ].
  destruct H as (Hp & Hl & _); [discriminate|].
  exact (conj Hp Hl).
Defined.

(** The good frame: one preview, of the picture as drawn on. *)
Lemma preview_published_for_every_decoded_frame_witness :
  exists results shown ok jpg ts,
    In (EvProcess (cvtColor Stub.figure COLOR_BGR2RGB) (Ok results))
       (trace_of (iteration Stub.one_frame)) /\
    match pose_landmarks results with
    | Some lms =>
        In (EvDrawLandmarks Stub.figure lms (Ok shown))
           (trace_of (iteration Stub.one_frame))
    | None =>
        shown = Stub.figure /\
        forall img lms r,
          ~ In (EvDrawLandmarks img lms r)
               (trace_of (iteration Stub.one_frame))
    end /\
    In (EvImencode ".jpg" shown [IMWRITE_JPEG_QUALITY; 70] (Ok (ok, jpg)))
       (trace_of (iteration Stub.one_frame)) /\
    In (EvTime (Ok ts)) (trace_of (iteration Stub.one_frame)) /\
    published socket_pub_img (trace_of (iteration Stub.one_frame)) =
      [[ encode_utf8
           (json_dumps (float_repr (Externals := Stub.externals))
              [("w", JInt (cols shown)); ("h", JInt (rows shown));
               ("ts", JFloat ts)]);
         jpg ]].
Proof.
  apply (@preview_published_for_every_decoded_frame Stub.Env Stub.externals
           Stub.one_frame (world_of (iteration Stub.one_frame))
           (ctl_of (iteration Stub.one_frame))
           (trace_of (iteration Stub.one_frame))
           Stub.jpeg IMREAD_COLOR Stub.figure);
    [ reflexivity | by_computation | reflexivity ].
Defined.

(** Noise, then the good frame: the noise goes by in silence and the frame
    behind it has its preview. *)
Lemma decode_failure_skips_message_witness :
  ctl_of (iteration Stub.noise_then_frame) = Continue /\
  published socket_pub_img (trace_of (iteration Stub.noise_then_frame)) = [] /\
  published socket_pub_pose (trace_of (iteration Stub.noise_then_frame)) = [] /\
  printed (trace_of (iteration Stub.noise_then_frame)) = [] /\
  List.length
    (published socket_pub_img (trace_of (run 2 Stub.noise_then_frame)))
  = 1%nat.
Proof.
  destruct (@decode_failure_skips_message Stub.Env Stub.externals
              Stub.noise_then_frame
              (world_of (iteration Stub.noise_then_frame))
              (ctl_of (iteration Stub.noise_then_frame))
              (trace_of (iteration Stub.noise_then_frame))
              Stub.noise IMREAD_COLOR)
    as (Hc & _ & Hi & Hp & Hl & _ & Hnext);
    [ reflexivity | by_computation | ].
  destruct (Hnext
              (trace_of
                 (iteration (world_of (iteration Stub.noise_then_frame))))
              (world_of
                 (iteration (world_of (iteration Stub.noise_then_frame))))
              Stub.jpeg IMREAD_COLOR Stub.figure)
    as (msg2 & res & shown & enc & ts & _ & _ & Hpub);
    [ reflexivity | by_computation | ].
  rewrite Hpub. repeat split; assumption.
Defined.

(** C3 as the specification words it has the failure recorded in an
    internal log.  On noise followed by a good frame the first pass has its
    [imdecode] return [None] and writes no line at all. *)
Lemma decode_failure_is_not_logged :
  In (EvImdecode Stub.noise IMREAD_COLOR (Ok None))
     (trace_of (iteration Stub.noise_then_frame)) /\
  ~ (exists line,
       In (EvPrint line) (trace_of (iteration Stub.noise_then_frame))).
Proof.
  split; [by_computation|].
  intros [line Hin]. vm_compute in Hin.
  repeat (destruct Hin as [Hin|Hin]; [discriminate Hin|]). exact Hin.
Qed.

(** An empty payload makes the codec raise: the loop is left at once. *)
Lemma error_terminates_loop_witness :
  ctl_of (iteration Stub.empty_payload) = Break /\
  main 1 Stub.empty_payload
  = Some (setup ++ trace_of (iteration Stub.empty_payload) ++ shutdown).
Proof.
  destruct (@error_terminates_loop Stub.Env Stub.externals
              Stub.empty_payload
              (world_of (iteration Stub.empty_payload))
              (ctl_of (iteration Stub.empty_payload))
              (trace_of (iteration Stub.empty_payload)))
    as (_ & Herr & _); [reflexivity|].
  destruct (Herr Stub.decode_error "!buf.empty()")
    as (Hc & _ & _ & Hmain); [ by_computation | reflexivity | ].
  exact (conj Hc (Hmain 0%nat)).
Defined.

(** The good frame, then Ctrl-C: [main] returns with everything closed. *)
Lemma shutdown_closes_every_handle_witness :
  ctl_of (iteration (world_of (iteration Stub.interrupted))) = Break /\
  main 2 Stub.interrupted
  = Some (setup ++
          (trace_of (iteration Stub.interrupted) ++ [Stub.sigint]) ++
          [ EvPrint "[Py] Shutting down."; EvClose socket_sub;
            EvClose socket_pub_img; EvClose socket_pub_pose; EvTerm ]).
Proof.
  destruct (proj1 (@shutdown_closes_every_handle Stub.Env Stub.externals)
              1%nat Stub.interrupted
              (world_of (iteration Stub.interrupted))
              (world_of (iteration (world_of (iteration Stub.interrupted))))
              (trace_of (iteration Stub.interrupted))
              [Stub.sigint] Break Stub.sigint)
    as (_ & _ & _ & Hmain);
    [ reflexivity | reflexivity | left; reflexivity | reflexivity | ].
  split; [reflexivity|]. exact (Hmain 0%nat).
Defined.

(** The good frame: the estimator is given the picture with red first. *)
Lemma estimator_gets_rgb_copy_witness :
  (exists r,
     In (EvProcess (cvtColor Stub.figure COLOR_BGR2RGB) r)
        (trace_of (iteration Stub.one_frame))) /\
  nth_error (data (cvtColor Stub.figure COLOR_BGR2RGB)) 0
  = Some (x00, x00, xff)%byte.
Proof.
  destruct (@estimator_gets_rgb_copy Stub.Env Stub.externals
              Stub.one_frame (world_of (iteration Stub.one_frame))
              (ctl_of (iteration Stub.one_frame))
              (trace_of (iteration Stub.one_frame))
              Stub.jpeg IMREAD_COLOR Stub.figure)
    as (Hcall & _ & _ & _ & Hpix & _);
    [ reflexivity | by_computation | ].
  split; [exact Hcall|]. apply (Hpix 0%nat xff x00 x00)%byte. reflexivity.
Defined.

(** The good frame under two labels: the same messages go out. *)
Lemma outputs_independent_of_inbound_metadata_witness :
  published socket_pub_img (main_trace 3 Stub.one_frame)
  = published socket_pub_img (main_trace 3 Stub.relabelled) /\
  published socket_pub_pose (main_trace 3 Stub.one_frame)
  = published socket_pub_pose (main_trace 3 Stub.relabelled).
Proof.
  destruct (@outputs_independent_of_inbound_metadata Stub.Env Stub.externals
              3 Stub.one_frame Stub.relabelled)
    as (_ & _ & Hpub & _).
  - repeat split; repeat constructor.
  - exact (conj (Hpub socket_pub_img) (Hpub socket_pub_pose)).
Defined.

(** A message of one part: [IndexError], and [main] returns. *)
Lemma short_message_is_fatal_witness :
  ctl_of (iteration Stub.one_part) = Break /\
  trace_of (iteration Stub.one_part)
  = [ EvPoll socket_sub 10 (Ok true); EvRecv socket_sub (Ok [Stub.meta]);
      EvPrint "[Py Error] list index out of range" ] /\
  main 1 Stub.one_part
  = Some (setup ++ trace_of (iteration Stub.one_part) ++ shutdown).
Proof.
  destruct (@short_message_is_fatal Stub.Env Stub.externals
              Stub.one_part (world_of (iteration Stub.one_part))
              (ctl_of (iteration Stub.one_part))
              (trace_of (iteration Stub.one_part)) [Stub.meta])
    as (Hc & Ht & _ & Hmain & _);
    [ reflexivity | by_computation | cbn; lia | ].
  exact (conj Hc (conj Ht (Hmain 0%nat))).
Defined.

(** Noise, then the good frame: the one preview is numbered 2. *)
Lemma frames_relayed_in_order_witness :
  StronglySorted lt
    (frame_numbers socket_pub_img 0 (trace_of (run 2 Stub.noise_then_frame)))
  /\ frame_numbers socket_pub_img 0 (trace_of (run 2 Stub.noise_then_frame))
     = [2%nat].
Proof.
  destruct (@frames_relayed_in_order Stub.Env Stub.externals 2
              Stub.noise_then_frame) as (_ & _ & _ & Hs).
  split; [exact (Hs socket_pub_img)|reflexivity].
Defined.

(** The good frame: its one encoding call asks for quality 70. *)
Lemma preview_encoded_at_quality_70_witness :
  exists img r,
    In (EvImencode ".jpg" img [1; 70] r) (main_trace 1 Stub.one_frame).
Proof.
  destruct (@preview_encoded_at_quality_70 Stub.Env Stub.externals 1
              Stub.one_frame) as (_ & Hpub).
  destruct (Hpub (hd [] (published socket_pub_img
                           (main_trace 1 Stub.one_frame))))
    as (meta & img & ok & jpg & _ & Hin); [by_computation|].
  exists img, (Ok (ok, jpg)). exact Hin.
Defined.

(** * More of [main()] *)

Ltac triple H :=
  apply pair_equal_spec in H; destruct H as [H ?];
  apply pair_equal_spec in H; destruct H as [? ?]; subst.

Ltac in_trace H :=
  cbn [In app] in H;
  repeat (destruct H as [H|H];
          [ first [ discriminate H | injection H as ?; subst | subst ] | ]);
  try contradiction.

Ltac in_goal := cbn [In app]; repeat (first [left; reflexivity | right]).

Ltac ticks := repeat match goal with u : unit |- _ => destruct u end.

Ltac pairs :=
  repeat match goal with p : (bool * bytes)%type |- _ => destruct p end.

Section More.
Context {E : Type} {X : Externals E}.

(** ** Receiving *)

(** X1. [recv_multipart] is only called right after a [poll] that reported
    a message, on a queue that holds one: the loop never blocks in it for
    want of a message, and a receive that does not return is the
    transport's doing. *)
Theorem recv_follows_positive_poll
    (w w' : World) (c : Ctl) (t : Trace) (s : Socket) (r : result Multipart) :
  iteration w = (c, t, w') ->
  In (EvRecv s r) t ->
  s = socket_sub /\
  (exists rest,
     t = EvPoll socket_sub 10 (Ok true) :: EvRecv socket_sub r :: rest) /\
  sub_queue w ++ hd [] (arrivals w) <> [] /\
  (r = Hang -> exists e e', zmq_recv_status e = (Hang, e')).
Proof.
  intros H Hin. pass_cases H; triple H; in_trace Hin.
  all: try match goal with
           | Hb : nonempty [] = true |- _ => discriminate Hb
           end.
  all: split; [reflexivity|]; split; [eexists; reflexivity|].
  all: split;
    [ intros Hq;
      first [ congruence
            | match goal with
              | Hb : nonempty _ = true |- _ =>
                  rewrite Hq in Hb; discriminate Hb
              end ] | ].
  all: intros Hr; try discriminate Hr; eauto.
Qed.

(** ** The pose stream *)

Lemma length_float32_tobytes (order : ByteOrder) (b : float32) :
  List.length (float32_tobytes order b) = 4%nat.
Proof. destruct order; reflexivity. Qed.

Lemma length_tobytes (order : ByteOrder) (a : list float32) :
  List.length (tobytes order a) = (4 * List.length a)%nat.
Proof.
  unfold tobytes. induction a as [|b a IH]; [reflexivity|].
  cbn [flat_map List.length]. rewrite length_app, IH, length_float32_tobytes.
  lia.
Qed.

Lemma length_extend_keypoints (l : list Landmark) :
  List.length (extend_keypoints l) = (4 * List.length l)%nat.
Proof.
  unfold extend_keypoints. induction l as [|lm l IH]; [reflexivity|].
  cbn [flat_map List.length app]. rewrite IH. lia.
Qed.

Lemma length_keypoint_bytes (l : list Landmark) :
  List.length (tobytes byteorder (map np_float32 (extend_keypoints l)))
  = (16 * List.length l)%nat.
Proof. rewrite length_tobytes, length_map, length_extend_keypoints. lia. Qed.

Lemma pose_framed_app (a b : Trace) :
  pose_framed a -> pose_framed b -> pose_framed (a ++ b).
Proof.
  intros Ha Hb parts Hin. rewrite published_app in Hin.
  apply in_app_or in Hin. destruct Hin; auto.
Qed.

Lemma pose_framed_pass (w w' : World) (c : Ctl) (t : Trace) :
  iteration w = (c, t, w') -> pose_framed t.
Proof.
  intros H parts Hin. pass_cases H; triple H; ticks.
  all: cbn [published Socket_eqb] in Hin; in_trace Hin.
  all: match goal with
       | Hne : nonempty (extend_keypoints (landmark ?l)) = true |- _ =>
           exists (List.length (landmark l)); eexists;
           split; [destruct (landmark l); [discriminate Hne|cbn; lia]|];
           split; [reflexivity|apply length_keypoint_bytes]
       end.
Qed.

(** X2. Whatever the frames and the collaborators, every pose message that
    [main()] publishes has two parts, a count of at least one and a payload
    of sixteen bytes for each landmark counted, on a host of either byte
    order.  No hypothesis on the estimator is needed for this. *)
Theorem pose_messages_are_framed (n : nat) (w : World) :
  forall parts,
    In parts (published socket_pub_pose (main_trace n w)) ->
    exists k payload,
      (0 < k)%nat /\ parts = [pose_meta k; payload] /\
      List.length payload = (16 * k)%nat.
Proof.
  apply (main_trace_ind pose_framed).
  - intros parts [].
  - apply pose_framed_app.
  - intros w0 c t w'. apply pose_framed_pass.
  - intros parts [].
  - intros parts [].
Qed.

(** ** Which calls, with which arguments *)

Lemma disciplined_pass (w w' : World) (c : Ctl) (t : Trace) :
  iteration w = (c, t, w') -> Forall disciplined t.
Proof.
  intros H. pass_cases H; triple H.
  all: repeat constructor; discriminate.
Qed.

(** X3. Every call [main()] makes keeps to the sockets' roles: it polls the
    inbound socket only, for 10 ms, receives from it only, and never sends
    on it; it connects and subscribes that socket and binds the other two;
    every message it sends has exactly two parts; every image is decoded
    with [IMREAD_COLOR]. *)
Theorem calls_keep_to_socket_roles (n : nat) (w : World) :
  Forall disciplined (main_trace n w).
Proof.
  apply (main_trace_ind (Forall disciplined)).
  - constructor.
  - intros a b Ha Hb. apply Forall_app. split; assumption.
  - intros w0 c t w'. apply disciplined_pass.
  - repeat constructor; discriminate.
  - repeat constructor.
Qed.

(** ** Drawing *)

(** X4. The skeleton is drawn only under the guard of line 66: every call of
    [draw_landmarks] in a pass is on the frame that pass decoded, with the
    very list the estimator returned as [pose_landmarks] in that pass, and a
    pass makes at most one such call. *)
Theorem draw_only_when_pose_found
    (w w' : World) (c : Ctl) (t : Trace) img lms r :
  iteration w = (c, t, w') ->
  In (EvDrawLandmarks img lms r) t ->
  (exists buf results,
     In (EvImdecode buf IMREAD_COLOR (Ok (Some img))) t /\
     In (EvProcess (cvtColor img COLOR_BGR2RGB) (Ok results)) t /\
     pose_landmarks results = Some lms) /\
  (forall img' lms' r',
     In (EvDrawLandmarks img' lms' r') t ->
     img' = img /\ lms' = lms /\ r' = r).
Proof.
  intros H Hin. pass_cases H; triple H; in_trace Hin.
  all: split;
    [ do 2 eexists; split; [in_goal|]; split; [in_goal|]; assumption
    | intros img' lms' r' Hin'; in_trace Hin'; repeat split ].
Qed.

(** ** The three streams *)

Lemma streams_nested_app (a b : Trace) :
  streams_nested a -> streams_nested b -> streams_nested (a ++ b).
Proof.
  unfold streams_nested. intros [Ha1 Ha2] [Hb1 Hb2].
  rewrite !published_app, received_app, !length_app. lia.
Qed.

Lemma streams_nested_pass (w w' : World) (c : Ctl) (t : Trace) :
  iteration w = (c, t, w') -> streams_nested t.
Proof.
  intros H. pass_cases H; triple H; ticks.
  all: split; cbn [published received Socket_eqb List.length]; lia.
Qed.

Lemma run_receives_at_most (n : nat) (w : World) :
  (List.length (received (trace_of (run n w))) <= n)%nat.
Proof.
  revert w. induction n as [|n IH]; intros w; [cbn; lia|].
  cbn [run]. destruct (iteration w) as [[c t] w1] eqn:Hit.
  destruct (pass_takes_oldest _ _ _ _ Hit) as (Hone & _).
  destruct c; cbn [trace_of fst snd]; try lia.
  specialize (IH w1). destruct (run n w1) as [[c' t'] w2].
  cbn [trace_of fst snd] in *. rewrite received_app, length_app. lia.
Qed.

(** X5. At any moment of any run [main()] has published no more pose
    messages than preview messages, no more preview messages than it has
    received frames, and, after [n] passes, received no more than [n]
    messages: a pose message goes out only once the preview of its frame
    was handed to the transport. *)
Theorem pose_stream_never_ahead (n : nat) (w : World) :
  (List.length (published socket_pub_pose (main_trace n w))
   <= List.length (published socket_pub_img (main_trace n w)))%nat /\
  (List.length (published socket_pub_img (main_trace n w))
   <= List.length (received (main_trace n w)))%nat /\
  (List.length (received (main_trace n w)) <= n)%nat.
Proof.
  assert (streams_nested (main_trace n w)) as [H1 H2].
  { apply (main_trace_ind streams_nested).
    - split; cbn; lia.
    - apply streams_nested_app.
    - intros w0 c t w'. apply streams_nested_pass.
    - split; cbn; lia.
    - split; cbn; lia. }
  repeat split; auto.
  pose proof (run_receives_at_most n w) as Hn. unfold main_trace.
  destruct (run n w) as [[c t] w']. cbn [trace_of fst snd] in Hn.
  destruct c; rewrite ?received_app; cbn [received setup shutdown app];
    rewrite ?length_app; cbn [List.length]; lia.
Qed.

(** ** What is printed *)

Lemma printed_pass (w w' : World) (c : Ctl) (t : Trace) :
  iteration w = (c, t, w') ->
  printed t = [] \/
  (c = Break /\ exists what, printed t = ["[Py Error] " ++ what]%string).
Proof.
  intros H. pass_cases H; triple H.
  all: first [ left; reflexivity
             | right; split; [reflexivity|eexists; reflexivity] ].
Qed.

Lemma printed_continue (w w' : World) (t : Trace) :
  iteration w = (Continue, t, w') -> printed t = [].
Proof.
  intros H. destruct (printed_pass _ _ _ _ H) as [Hp|[Hc _]];
    [exact Hp|discriminate Hc].
Qed.

Lemma printed_run (n : nat) (w : World) :
  printed (trace_of (run n w)) = [] \/
  (ctl_of (run n w) = Break /\
   exists what,
     printed (trace_of (run n w)) = ["[Py Error] " ++ what]%string).
Proof.
  revert w. induction n as [|n IH]; intros w; [left; reflexivity|].
  cbn [run]. destruct (iteration w) as [[c t] w1] eqn:Hit.
  destruct c; try exact (printed_pass _ _ _ _ Hit).
  specialize (IH w1). destruct (run n w1) as [[c' t'] w2].
  cbn [trace_of ctl_of fst snd] in *. rewrite printed_app.
  rewrite (printed_continue _ _ _ Hit). exact IH.
Qed.

(** X6. The lines [main()] prints.  When it returns: the two startup lines,
    then at most one line, ["[Py Error] "] followed by the text of the
    exception that ended the loop, then the shutdown line, and no other.
    While it has not returned, and the loop is not being left, only the two
    startup lines: no pass that continues prints anything. *)
Theorem printed_lines_of_main (n : nat) (w : World) :
  (forall tr,
     main n w = Some tr ->
     exists err,
       printed tr
       = [ "[Py] Starting Inference Engine...";
           "[Py] Ready and waiting for frames..." ]%string
         ++ err ++ ["[Py] Shutting down."]%string /\
       (err = [] \/ exists what, err = ["[Py Error] " ++ what]%string)) /\
  (main n w = None ->
   printed (main_trace n w)
   = [ "[Py] Starting Inference Engine...";
       "[Py] Ready and waiting for frames..." ]%string).
Proof.
  pose proof (printed_run n w) as Hp. unfold main, main_trace.
  destruct (run n w) as [[c t] w']. cbn [trace_of ctl_of fst snd] in Hp.
  split.
  - intros tr Htr. destruct c; try discriminate Htr. injection Htr as <-.
    exists (printed t). unfold setup, shutdown. cbn [app printed].
    rewrite printed_app. split; [reflexivity|].
    destruct Hp as [->|[_ [what ->]]]; [left; reflexivity|].
    right; exists what; reflexivity.
  - intros Hnone. destruct c; try discriminate Hnone;
      unfold setup; cbn [app printed];
      (destruct Hp as [->|[Hc _]]; [reflexivity|discriminate Hc]).
Qed.

(** ** Edges of the estimator's and the encoder's answers *)

(** X7. When the estimator returns [pose_landmarks] without
    [pose_world_landmarks], line 72 raises [AttributeError] after the frame
    has been drawn on and before anything is encoded: the pass publishes
    neither a preview nor a pose message for that frame, prints the error
    and leaves the loop. *)
Theorem missing_world_landmarks_is_fatal
    (w w' : World) (c : Ctl) (t : Trace) image results img lms shown :
  iteration w = (c, t, w') ->
  In (EvProcess image (Ok results)) t ->
  pose_world_landmarks results = None ->
  In (EvDrawLandmarks img lms (Ok shown)) t ->
  c = Break /\
  (exists pre,
     t = pre ++
         [ EvDrawLandmarks img lms (Ok shown);
           EvPrint
             "[Py Error] 'NoneType' object has no attribute 'landmark'" ]) /\
  (forall ext im params r, ~ In (EvImencode ext im params r) t) /\
  published socket_pub_img t = [] /\
  published socket_pub_pose t = [].
Proof.
  intros H Hproc Hnone Hdraw.
  pass_cases H; triple H; in_trace Hproc; in_trace Hdraw; try congruence.
  split; [reflexivity|]. split.
  - match goal with
    | |- exists pre, ?l = _ =>
        exists (removelast (removelast l)); reflexivity
    end.
  - split; [intros ext im params r Hin; in_trace Hin|].
    split; reflexivity.
Qed.

(** X8. The success flag of [imencode] is dropped (the [_] of line 76): in
    a pass that runs to its end the buffer the call returned is published
    as the preview payload even when the flag is [False]. *)
Theorem encode_flag_is_ignored
    (w w' : World) (t : Trace) ext img params (buf : bytes) :
  iteration w = (Continue, t, w') ->
  In (EvImencode ext img params (Ok (false, buf))) t ->
  exists ts,
    In (EvTime (Ok ts)) t /\
    published socket_pub_img t = [[preview_meta img ts; buf]].
Proof.
  intros H Hin.
  destruct (continue_cases _ _ _ H)
    as [-> | [(msg & b & _ & ->)
             | (msg & b & frame & res & shown & enc & ts & _ & ->)]];
    try (in_trace Hin; fail).
  exists ts. unfold decoded_trace in *.
  destruct (pose_landmarks res);
    [destruct (pose_world_landmarks res) as [wl|];
     [destruct (nonempty (landmark wl))|]|];
    in_trace Hin; split; try in_goal; reflexivity.
Qed.

(** ** With nothing to do *)

Lemma idle_pass (w : World) :
  sub_queue w = [] ->
  Forall (fun batch => batch = []) (arrivals w) ->
  (forall e, fst (zmq_poll_status e) = Ok tt) ->
  exists w',
    iteration w = (Continue, [EvPoll socket_sub 10 (Ok false)], w') /\
    sub_queue w' = [] /\
    Forall (fun batch => batch = []) (arrivals w').
Proof.
  intros Hq Ha Hok.
  unfold iteration, try_body, bind, poll, ret.
  pose proof (Hok (env w)) as Hp.
  destruct (zmq_poll_status (env w)) as [st e']. cbn [fst] in Hp. subst st.
  assert (sub_queue w ++ hd [] (arrivals w) = []) as ->.
  { rewrite Hq. destruct Ha as [|b l Hb _]; [reflexivity|exact Hb]. }
  cbn [nonempty app]. eexists. split; [reflexivity|].
  cbn [sub_queue arrivals]. split; [reflexivity|].
  destruct Ha; [constructor|assumption].
Qed.

(** X9. With no message queued or arriving and a [poll] that always
    returns, the loop goes on for ever doing nothing else: [n] passes are
    [n] calls of [poll(10)] that each report nothing, nothing is received
    or published, and [main()] does not return. *)
Theorem idle_loop_only_polls (n : nat) (w : World) :
  sub_queue w = [] ->
  Forall (fun batch => batch = []) (arrivals w) ->
  (forall e, fst (zmq_poll_status e) = Ok tt) ->
  ctl_of (run n w) = Continue /\
  trace_of (run n w) = repeat (EvPoll socket_sub 10 (Ok false)) n /\
  main n w = None.
Proof.
  intros Hq Ha Hok.
  assert (ctl_of (run n w) = Continue /\
          trace_of (run n w) = repeat (EvPoll socket_sub 10 (Ok false)) n)
    as [Hc Ht].
  { revert w Hq Ha. induction n as [|n IH]; intros w Hq Ha;
      [split; reflexivity|].
    destruct (idle_pass w Hq Ha Hok) as (w' & Hit & Hq' & Ha').
    cbn [run]. rewrite Hit. destruct (IH w' Hq' Ha') as [Hc Ht].
    destruct (run n w') as [[c t] w'']. cbn [ctl_of trace_of fst snd] in *.
    subst. split; reflexivity. }
  repeat split; auto. unfold main.
  destruct (run n w) as [[c t] w']. cbn [ctl_of fst] in Hc. subst c.
  reflexivity.
Qed.

(** ** Reading the pose message back *)

Lemma Z_of_byte_of_Z (v : Z) : Z_of_byte (byte_of_Z v) = v mod 256.
Proof.
  unfold Z_of_byte, byte_of_Z.
  assert (0 <= v mod 256 < 256) as Hr by (apply Z.mod_pos_bound; lia).
  set (n := Z.to_N (v mod 256)).
  assert (n < 256)%N as Hn by (subst n; lia).
  pose proof (byte_of_ascii_via_N (ascii_of_N n)) as Hb.
  rewrite (N_ascii_embedding n Hn) in Hb. symmetry in Hb.
  apply Byte.to_of_N in Hb. rewrite Hb. subst n. lia.
Qed.

Lemma word_of_bytes (v : Z) :
  v mod 256 + 256 * ((v / 256) mod 256) + 65536 * ((v / 65536) mod 256)
  + 16777216 * ((v / 16777216) mod 256) = v mod 4294967296.
Proof.
  replace (v / 65536) with (v / 256 / 256)
    by (rewrite Z.div_div by lia; reflexivity).
  replace (v / 16777216) with (v / 256 / 256 / 256)
    by (rewrite !Z.div_div by lia; reflexivity).
  pose proof (Z.div_mod v 256 ltac:(lia)).
  pose proof (Z.div_mod (v / 256) 256 ltac:(lia)).
  pose proof (Z.div_mod (v / 256 / 256) 256 ltac:(lia)).
  pose proof (Z.div_mod (v / 256 / 256 / 256) 256 ltac:(lia)).
  pose proof (Z.mod_pos_bound v 256 ltac:(lia)).
  pose proof (Z.mod_pos_bound (v / 256) 256 ltac:(lia)).
  pose proof (Z.mod_pos_bound (v / 256 / 256) 256 ltac:(lia)).
  pose proof (Z.mod_pos_bound (v / 256 / 256 / 256) 256 ltac:(lia)).
  apply Z.mod_unique_pos with (q := v / 256 / 256 / 256 / 256); lia.
Qed.

Lemma read_float32_le (v : Z) :
  frombuffer_le (float32_le v) = [v mod 4294967296].
Proof.
  unfold float32_le. cbn [frombuffer_le]. rewrite !Z_of_byte_of_Z.
  rewrite !Z.shiftr_div_pow2 by lia.
  change (2 ^ 8) with 256. change (2 ^ 16) with 65536.
  change (2 ^ 24) with 16777216.
  rewrite word_of_bytes. reflexivity.
Qed.

Lemma frombuffer_le_app (v : Z) (rest : bytes) :
  frombuffer_le (float32_le v ++ rest)
  = v mod 4294967296 :: frombuffer_le rest.
Proof.
  pose proof (read_float32_le v) as H. unfold float32_le in *.
  cbn [app frombuffer_le] in *.
  apply (f_equal (hd 0)) in H. cbn [hd] in H. rewrite H. reflexivity.
Qed.

(** X10. The payload read back: on a little-endian host, splitting the
    bytes of [tobytes] into words of four and reading each little-endian
    gives the [float32] bit patterns that were written, in order and as
    many; for the landmarks of a pose message, x, y, z and visibility of
    each. *)
Theorem payload_reads_back (a : list float32) (l : list Landmark) :
  frombuffer_le (tobytes little a) = map (fun v => v mod 4294967296) a /\
  frombuffer_le (flat_map landmark_bytes l)
  = map (fun f => np_float32 f mod 4294967296) (extend_keypoints l).
Proof.
  assert (forall a, frombuffer_le (tobytes little a)
                    = map (fun v => v mod 4294967296) a) as Hgen.
  { intros a0. unfold tobytes. induction a0 as [|v a0 IH]; [reflexivity|].
    cbn [flat_map map float32_tobytes]. rewrite frombuffer_le_app, IH.
    reflexivity. }
  split; [apply Hgen|].
  rewrite <- tobytes_little_keypoints, Hgen, map_map. reflexivity.
Qed.

Lemma before_brace_append (d : string) :
  before_brace (d ++ "}") = Some d.
Proof.
  induction d as [|c d IH]; [reflexivity|].
  cbn [append before_brace]. rewrite IH.
  destruct d; reflexivity.
Qed.

Lemma to_int_not_nil (z : Z) :
  Z.to_int z <> Decimal.Pos Decimal.Nil /\
  Z.to_int z <> Decimal.Neg Decimal.Nil.
Proof.
  destruct z as [|p|p]; cbn [Z.to_int]; split; try discriminate;
    intros H; injection H as H;
    exact (DecimalPos.Unsigned.to_uint_nonnil p H).
Qed.

Lemma after_count_prefix (s : string) :
  after_prefix ("{" ++ dquote ++ "count" ++ dquote ++ ": ")
               ("{" ++ (dquote ++ "count" ++ dquote ++ ": " ++ s) ++ "}")
  = Some (s ++ "}")%string.
Proof. reflexivity. Qed.

(** X11. The metadata read back: the count a subscriber parses out of the
    first part of a pose message is the number that was written. *)
Theorem count_reads_back (k : nat) :
  loads_count (pose_meta k) = Some (Z.of_nat k).
Proof.
  unfold loads_count, pose_meta, encode_utf8.
  rewrite string_of_list_byte_of_string.
  unfold json_dumps, dumps_items, dumps_item, dumps_value, fst, snd.
  rewrite after_count_prefix, before_brace_append. unfold str_int.
  destruct (to_int_not_nil (Z.of_nat k)) as [H1 H2].
  rewrite (NilZero.isi _ H1 H2). cbn [option_map].
  rewrite DecimalZ.of_to. reflexivity.
Qed.

(** ** Startup *)

Section Startup.
Context {S0 : Startup E}.

(** The calls made are the first of the list, all returned but the last
    when the startup did not get through. *)
Lemma start_shape (calls : list SetupCall) (e : E) :
  exists done rest,
    calls = done ++ rest /\
    match fst (fst (start calls e)) with
    | Ok _ => rest = [] /\ snd (fst (start calls e)) = map returned done
    | r =>
        exists c rest',
          rest = c :: rest' /\
          snd (fst (start calls e)) = map returned done ++ [ActSetup c r]
    end.
Proof.
  revert e. induction calls as [|c calls IH]; intros e.
  - exists [], []. repeat split.
  - cbn [start]. destruct (startup_call c e) as [r e1].
    destruct r as [[]|ex|].
    + destruct (IH e1) as (done & rest & -> & Hs).
      destruct (start (done ++ rest) e1) as [[r' t] e2].
      cbn [fst snd] in *. exists (c :: done), rest.
      split; [reflexivity|].
      destruct r' as [u|ex|].
      * destruct Hs as [-> ->]. split; reflexivity.
      * destruct Hs as (c' & rest' & -> & ->). exists c', rest'.
        split; reflexivity.
      * destruct Hs as (c' & rest' & -> & ->). exists c', rest'.
        split; reflexivity.
    + exists [], (c :: calls). split; [reflexivity|].
      exists c, calls. split; reflexivity.
    + exists [], (c :: calls). split; [reflexivity|].
      exists c, calls. split; reflexivity.
Qed.

Lemma events_of_returned (l : list SetupCall) :
  closes (flat_map events_of (map returned l)) = [] /\
  terms (flat_map events_of (map returned l)) = 0%nat /\
  printed (flat_map events_of (map returned l)) = [].
Proof.
  induction l as [|c l (IH1 & IH2 & IH3)]; [repeat split|].
  cbn [map flat_map]. rewrite closes_app, terms_app, printed_app, IH1, IH2, IH3.
  destruct c; repeat split.
Qed.

Lemma events_of_loop (t : Trace) : flat_map events_of (map ActEvent t) = t.
Proof.
  induction t as [|ev t IH]; [reflexivity|].
  cbn [map flat_map events_of app]. rewrite IH. reflexivity.
Qed.

(** X12. The startup is outside the [try]: when one of its calls raises
    (a port that is taken, say), [main()] ends with that exception whatever
    the frames waiting.  The calls before it all returned and none after it
    is made; the ready line is never printed, the loop is never entered,
    and no socket is closed nor the context terminated, though those
    created so far exist. *)
Theorem startup_failure_skips_shutdown
    (n : nat) (w : World) (ex : exn) (t0 : list Action) (e' : E) :
  start setup_calls (env w) = (Raise ex, t0, e') ->
  main_with_startup n w
  = Some (Raise ex,
          ActEvent (EvPrint "[Py] Starting Inference Engine...") :: t0) /\
  (exists done c rest,
     setup_calls = done ++ c :: rest /\
     t0 = map returned done ++ [ActSetup c (Raise ex)]) /\
  printed (flat_map events_of t0) = [] /\
  closes (flat_map events_of t0) = [] /\
  terms (flat_map events_of t0) = 0%nat.
Proof.
  intros H. split; [unfold main_with_startup; rewrite H; reflexivity|].
  destruct (start_shape setup_calls (env w)) as (done & rest & Hc & Hs).
  rewrite H in Hs. cbn [fst snd] in Hs.
  destruct Hs as (c & rest' & -> & ->).
  split; [exists done, c, rest'; split; [exact Hc|reflexivity]|].
  destruct (events_of_returned done) as (H1 & H2 & H3).
  rewrite flat_map_app, printed_app, closes_app, terms_app, H1, H2, H3.
  repeat split.
Qed.

(** X13. When every startup call returns, [main()] from its first line is
    [main] from the world the startup left: it returns if and only if
    [main] does, and then its events, the startup's connect, subscribe and
    binds among them, are the trace of [main]. *)
Theorem startup_success_runs_main
    (n : nat) (w : World) (u : unit) (t0 : list Action) (e' : E) :
  start setup_calls (env w) = (Ok u, t0, e') ->
  t0 = map returned setup_calls /\
  match main_with_startup n w with
  | Some (r, acts) =>
      r = Ok tt /\ main n (set_env w e') = Some (flat_map events_of acts)
  | None => main n (set_env w e') = None
  end.
Proof.
  intros H.
  destruct (start_shape setup_calls (env w)) as (done & rest & Hc & Hs).
  rewrite H in Hs. cbn [fst snd] in Hs. destruct Hs as [-> ->].
  rewrite app_nil_r in Hc. subst done. split; [reflexivity|].
  unfold main_with_startup, main. rewrite H.
  destruct (run n (set_env w e')) as [[c t] w'].
  destruct c; try reflexivity. split; [reflexivity|]. f_equal.
  cbn [flat_map events_of app].
  rewrite flat_map_app. cbn [flat_map events_of app].
  rewrite flat_map_app, !events_of_loop. reflexivity.
Qed.

End Startup.

End More.

(** * More of [main()] on the stand-ins *)

Ltac by_running := vm_compute; repeat (first [left; reflexivity | right]).

(** The good frame is received right after a poll that reported it. *)
Lemma recv_follows_positive_poll_witness :
  exists rest,
    trace_of (iteration Stub.one_frame)
    = EvPoll socket_sub 10 (Ok true)
      :: EvRecv socket_sub (Ok Stub.good) :: rest.
Proof.
  destruct (@recv_follows_positive_poll Stub.Env Stub.externals
              Stub.one_frame (world_of (iteration Stub.one_frame))
              (ctl_of (iteration Stub.one_frame))
              (trace_of (iteration Stub.one_frame))
              socket_sub (Ok Stub.good))
    as (_ & Hshape & _); [ reflexivity | by_running | ].
  exact Hshape.
Defined.

(** The pose message of the good frame: a count and sixteen bytes each. *)
Lemma pose_messages_are_framed_witness :
  exists k payload,
    (0 < k)%nat /\
    hd [] (published socket_pub_pose (main_trace 1 Stub.one_frame))
    = [pose_meta (X := Stub.externals) k; payload] /\
    List.length payload = (16 * k)%nat.
Proof.
  apply (@pose_messages_are_framed Stub.Env Stub.externals 1 Stub.one_frame).
  by_running.
Defined.

(** The good frame is drawn on once, with the landmarks found in it. *)
Lemma draw_only_when_pose_found_witness :
  exists buf results,
    In (EvImdecode buf IMREAD_COLOR (Ok (Some Stub.figure)))
       (trace_of (iteration Stub.one_frame)) /\
    In (EvProcess (cvtColor Stub.figure COLOR_BGR2RGB) (Ok results))
       (trace_of (iteration Stub.one_frame)) /\
    pose_landmarks results = Some Stub.three.
Proof.
  destruct (@draw_only_when_pose_found Stub.Env Stub.externals
              Stub.one_frame (world_of (iteration Stub.one_frame))
              (ctl_of (iteration Stub.one_frame))
              (trace_of (iteration Stub.one_frame))
              Stub.figure Stub.three (Ok Edge.painted))
    as (Hguard & _); [ reflexivity | by_running | ].
  exact Hguard.
Defined.

(** A pose without world landmarks: drawn on, then the loop is left with
    nothing published. *)
Lemma missing_world_landmarks_is_fatal_witness :
  ctl_of (iteration (X := Edge.externals) Edge.half) = Break /\
  published socket_pub_img
    (trace_of (iteration (X := Edge.externals) Edge.half)) = [] /\
  published socket_pub_pose
    (trace_of (iteration (X := Edge.externals) Edge.half)) = [].
Proof.
  destruct (@missing_world_landmarks_is_fatal unit Edge.externals
              Edge.half
              (world_of (iteration (X := Edge.externals) Edge.half))
              (ctl_of (iteration (X := Edge.externals) Edge.half))
              (trace_of (iteration (X := Edge.externals) Edge.half))
              (cvtColor Stub.figure COLOR_BGR2RGB) Edge.half_found
              Stub.figure Stub.three Stub.figure)
    as (Hc & _ & _ & Hi & Hp);
    [ reflexivity | by_running | reflexivity | by_running | ].
  exact (conj Hc (conj Hi Hp)).
Defined.

(** An encoder that reports failure: its buffer is the preview all the
    same. *)
Lemma encode_flag_is_ignored_witness :
  exists ts,
    In (EvTime (Ok ts))
       (trace_of (iteration (X := Edge.externals) Edge.plain)) /\
    published socket_pub_img
      (trace_of (iteration (X := Edge.externals) Edge.plain))
    = [[preview_meta (X := Edge.externals) Edge.blank ts; [x00]%byte]].
Proof.
  apply (@encode_flag_is_ignored unit Edge.externals Edge.plain
           (world_of (iteration (X := Edge.externals) Edge.plain))
           (trace_of (iteration (X := Edge.externals) Edge.plain))
           ".jpg" Edge.blank [IMWRITE_JPEG_QUALITY; 70] [x00]%byte);
    [ reflexivity | by_running ].
Defined.

(** Nothing queued: five passes are five polls, and [main] is still
    running. *)
Lemma idle_loop_only_polls_witness :
  trace_of (run (X := Edge.externals) 5 Edge.idle)
  = repeat (EvPoll socket_sub 10 (Ok false)) 5 /\
  main (X := Edge.externals) 5 Edge.idle = None.
Proof.
  destruct (@idle_loop_only_polls unit Edge.externals 5 Edge.idle)
    as (_ & Ht & Hm);
    [ reflexivity | constructor | intros e; reflexivity | ].
  exact (conj Ht Hm).
Defined.

(** The preview port is taken: [main()] raises at the sixth call, with the
    inbound socket connected and nothing closed. *)
Lemma startup_failure_skips_shutdown_witness :
  main_with_startup (X := Stub.externals) (S0 := Edge.port_taken)
    5 Stub.one_frame
  = Some (Raise (Exception "Address already in use"),
          [ ActEvent (EvPrint "[Py] Starting Inference Engine...");
            returned NewContext;
            returned (NewSocket socket_sub SUB);
            returned (Connect socket_sub "tcp://127.0.0.1:6000");
            returned (SetSubscribe socket_sub "");
            returned (NewSocket socket_pub_img PUB);
            ActSetup (Bind socket_pub_img "tcp://*:6001")
                     (Raise (Exception "Address already in use")) ]).
Proof.
  destruct (@startup_failure_skips_shutdown Stub.Env Stub.externals
              Edge.port_taken 5 Stub.one_frame
              (Exception "Address already in use")
              (snd (fst (start (S0 := Edge.port_taken) setup_calls
                           (env Stub.one_frame))))
              (snd (start (S0 := Edge.port_taken) setup_calls
                      (env Stub.one_frame))))
    as (Hmain & _); [ reflexivity | ].
  exact Hmain.
Defined.

(** A startup that gets through, and Ctrl-C at the first poll: the events
    of [main()] are the trace of [main]. *)
Lemma startup_success_runs_main_witness :
  exists acts,
    main_with_startup (X := Stub.externals) (S0 := Edge.starts)
      1 Stub.interrupted = Some (Ok tt, acts) /\
    main 1 (set_env Stub.interrupted
              {| Stub.now := 9; Stub.sigint_at := 9 |})
    = Some (flat_map events_of acts).
Proof.
  destruct (@startup_success_runs_main Stub.Env Stub.externals Edge.starts
              1 Stub.interrupted tt
              (map returned setup_calls)
              {| Stub.now := 9; Stub.sigint_at := 9 |})
    as [_ H]; [reflexivity|].
  destruct (main_with_startup (X := Stub.externals) (S0 := Edge.starts)
              1 Stub.interrupted) as [[r acts]|].
  - destruct H as [-> H]. exists acts. split; [reflexivity|exact H].
  - vm_compute in H. discriminate H.
Defined.
